(** * Option pricing: Black-Scholes, Monte Carlo and binomial tree

    A shallow embedding of [main.cpp].  The C++ [double] is kept abstract
    behind the interface [Arith], so that what is proved about the control
    structure of the pricers (loops, vector accesses, draws from the
    generator) holds for every arithmetic, IEEE 754 binary64 included.
    The algebraic facts (closed formulas, parity, bounds, signs) are proved
    at the instance [Rdouble], where [double] is read as a real number; the
    instance [Binary64.arith] is there for what NaNs and signed zeros do.
    C++ [int] is a [Z] in the range of 32 bits, and the sums and
    differences that [BinomialTree::price] takes on [int] wrap around
    ([Int.add], [Int.sub]): with [N = INT_MAX] the size [N + 1] of the
    vector wraps to [INT_MIN], and the constructor throws. *)

From Stdlib Require Import ZArith List Reals Lra Lia Bool.
From Stdlib Require Import Floats.SpecFloat.
From Stdlib Require Strings.String Strings.Ascii.
From stdpp Require Import base list.

(** ** The arithmetic of [double] *)

Class Arith := {
  double : Type;
  (* the literals of the source *)
  d_zero : double;                      (* 0.0 *)
  d_half : double;                      (* 0.5 *)
  d_one  : double;                      (* 1.0 *)
  d_two  : double;                      (* 2.0 *)
  (* operators *)
  d_add : double -> double -> double;
  d_sub : double -> double -> double;
  d_mul : double -> double -> double;
  d_div : double -> double -> double;
  d_neg : double -> double;
  d_lt  : double -> double -> bool;     (* operator< *)
  of_int : Z -> double;                 (* int -> double conversion *)
  (* <cmath> *)
  exp  : double -> double;
  log  : double -> double;
  sqrt : double -> double;
  pow  : double -> Z -> double;         (* std::pow(double, int) *)
}.

Declare Scope double_scope.
Delimit Scope double_scope with D.
Bind Scope double_scope with double.
Notation "x + y" := (d_add x y) : double_scope.
Notation "x - y" := (d_sub x y) : double_scope.
Notation "x * y" := (d_mul x y) : double_scope.
Notation "x / y" := (d_div x y) : double_scope.
Notation "- x" := (d_neg x) : double_scope.

(** [std::max(a, b)] is [(a < b) ? b : a]. *)
Definition d_max `{Arith} (a b : double) : double :=
  if d_lt a b then b else a.

(** [double] read as a real number.  Nothing is a NaN or an infinity here,
    and the division, the logarithm and the square root are the total
    functions of the real-number library ([x / 0], [ln] and [sqrt] of a
    negative number are numbers): what is proved at this instance speaks of
    the program where [sigma > 0], [T > 0], [S > 0] and [K > 0], or where
    none of the three functions is applied to a parameter. *)
Definition Rltb (a b : R) : bool := if Rlt_dec a b then true else false.

#[export] Instance Rdouble : Arith := {|
  double := R;
  d_zero := 0%R;
  d_half := (1 / 2)%R;
  d_one := 1%R;
  d_two := 2%R;
  d_add := Rplus;
  d_sub := Rminus;
  d_mul := Rmult;
  d_div := Rdiv;
  d_neg := Ropp;
  d_lt := Rltb;
  of_int := IZR;
  exp := Rtrigo_def.exp;
  log := ln;
  sqrt := R_sqrt.sqrt;
  pow := powerRZ;
|}.

(** [double] as IEEE 754 binary64, on the specification of floating-point
    numbers of the standard library: a zero, an infinity, a NaN or a finite
    number, with operations that round to nearest.  The functions of
    [<cmath>] that IEEE 754 does not fix are left to an implementation
    [Libm]. *)
Module Binary64.

Definition prec : Z := 53.
Definition emax : Z := 1024.

Record Libm : Type := {
  libm_exp : spec_float -> spec_float;
  libm_log : spec_float -> spec_float;
  libm_pow : spec_float -> Z -> spec_float;
}.

(** The [double] nearest to an integer times a power of two. *)
Definition of_Z (m e : Z) : spec_float := binary_normalize prec emax m e false.

Definition arith (m : Libm) : Arith := {|
  double := spec_float;
  d_zero := S754_zero false;
  d_half := of_Z 1 (-1);
  d_one := of_Z 1 0;
  d_two := of_Z 2 0;
  d_add := SFadd prec emax;
  d_sub := SFsub prec emax;
  d_mul := SFmul prec emax;
  d_div := SFdiv prec emax;
  d_neg := SFopp;
  d_lt := SFltb;
  of_int := fun z => of_Z z 0;
  exp := libm_exp m;
  log := libm_log m;
  sqrt := SFsqrt prec emax;
  pow := libm_pow m;
|}.

End Binary64.

(** A number whose sign bit is clear, or a NaN. *)
Definition sign_clear (x : spec_float) : Prop :=
  match x with
  | S754_nan => True
  | S754_zero s | S754_infinity s | S754_finite s _ _ => s = false
  end.

(** [x < 0.0] is false: [x] is a zero, a positive number or a NaN. *)
Definition not_negative (x : spec_float) : Prop :=
  SFltb x (S754_zero false) = false.

(** [std::erf]: kept apart from [Arith], since the real-number library has
    no error function to instantiate it with; what the proofs need of it is
    stated where it is used. *)
Class ErrorFunction (A : Arith) := { erf : double -> double }.

(** ** Options and market parameters *)

(** [struct Parameters]; the fields keep their names and are read
    [Parameters.S p], [Parameters.sigma p], ... *)
Module Parameters.
Record t {A : Arith} : Type := {
  S : double;      (* current stock price *)
  sigma : double;  (* volatility *)
  r : double;      (* risk-free rate *)
  T : double;      (* time to maturity *)
}.
End Parameters.
Abbreviation Parameters := Parameters.t.

Section Model.
Context {A : Arith}.

(** The two subclasses of [Option], each holding its strike [K]. *)
Inductive Option : Type :=
| EuropeanCall (K : double)
| EuropeanPut (K : double).

Definition payoff (o : Option) (ST : double) : double :=
  match o with
  | EuropeanCall K => d_max (ST - K)%D d_zero
  | EuropeanPut K => d_max (K - ST)%D d_zero
  end.

Definition call (o : Option) : bool :=
  match o with EuropeanCall _ => true | EuropeanPut _ => false end.

Definition strike (o : Option) : double :=
  match o with EuropeanCall K => K | EuropeanPut K => K end.

End Model.

Arguments Option : clear implicits.
Arguments Option {A}.

(** ** BlackScholesprice *)

Module BlackScholesprice.
Section Code.
Context {A : Arith} {E : ErrorFunction A}.

Definition normal_cdf (x : double) : double :=
  (d_half * (d_one + erf (x / sqrt d_two)))%D.

Definition d1 (option : Option) (p : Parameters) : double :=
  ((log (p.(Parameters.S) / strike option)
    + (p.(Parameters.r) + d_half * p.(Parameters.sigma) * p.(Parameters.sigma))
      * p.(Parameters.T))
   / (p.(Parameters.sigma) * sqrt p.(Parameters.T)))%D.

Definition d2 (option : Option) (p : Parameters) : double :=
  (d1 option p - p.(Parameters.sigma) * sqrt p.(Parameters.T))%D.

Definition bsprice (option : Option) (p : Parameters) : double :=
  let k1 := d1 option p in
  let k2 := d2 option p in
  if call option then
    (p.(Parameters.S) * normal_cdf k1
     - strike option * exp (- p.(Parameters.r) * p.(Parameters.T)) * normal_cdf k2)%D
  else
    (strike option * exp (- p.(Parameters.r) * p.(Parameters.T)) * normal_cdf (- k2)
     - p.(Parameters.S) * normal_cdf (- k1))%D.

Definition delta (option : Option) (p : Parameters) : double :=
  let a1 := d1 option p in
  let n1 := normal_cdf a1 in
  if call option then n1 else (n1 - d_one)%D.

End Code.
End BlackScholesprice.

(** ** RNG *)

(** The part of [<random>] that [class RNG] uses: the engine [mt19937],
    built from a seed, and [normal_distribution<double>], whose call
    [rv(gen)] returns a draw and advances both objects. *)
Class StdRandom (A : Arith) := {
  mt19937 : Type;
  mt19937_seed : Z -> mt19937;
  normal_distribution : Type;
  normal_distribution_init : double -> double -> normal_distribution;
  normal_distribution_call :
    normal_distribution -> mt19937 -> double * (normal_distribution * mt19937);
}.

Module RNG.
Section Code.
Context {A : Arith} {Rnd : StdRandom A}.

Record t : Type := { gen : mt19937; rv : normal_distribution }.

(** [RNG(): gen(random_device{}()), rv(0.0,1.0)].  The constructor takes no
    argument: the seed is the number [random_device{}()] hands out, which
    is an input of the environment, written [device] here. *)
Definition RNG (device : Z) : t :=
  {| gen := mt19937_seed device; rv := normal_distribution_init d_zero d_one |}.

Definition sample (g : t) : double * t :=
  let '(z, (rv', gen')) := normal_distribution_call (rv g) (gen g) in
  (z, {| gen := gen'; rv := rv' |}).

End Code.
End RNG.
Abbreviation RNG := RNG.t.

(** ** MonteCarloprice *)

Module MonteCarloprice.
Section Code.
Context {A : Arith} {Rnd : StdRandom A}.

(** One pass through the body of the [for] loop of [mc_price]. *)
Definition mc_trial (option : Option) (p : Parameters)
    (st : double * RNG) : double * RNG :=
  let '(total_payoff, rng) := st in
  let '(z, rng) := RNG.sample rng in
  let ST :=
    (p.(Parameters.S)
     * exp ((p.(Parameters.r) - d_half * p.(Parameters.sigma) * p.(Parameters.sigma))
              * p.(Parameters.T)
            + p.(Parameters.sigma) * sqrt p.(Parameters.T) * z))%D in
  ((total_payoff + payoff option ST)%D, rng).

(** [for(int i=0;i<n;i++)]: the body does not read [i], so the loop is the
    body run once for each [i] with [0 <= i < n]. *)
Fixpoint mc_loop (count : nat) (option : Option) (p : Parameters)
    (st : double * RNG) : double * RNG :=
  match count with
  | O => st
  | Datatypes.S k => mc_loop k option p (mc_trial option p st)
  end.

(** The generator is passed by reference: its state after the call is
    returned next to the price. *)
Definition mc_price (option : Option) (p : Parameters) (rng : RNG) (n : Z)
    : double * RNG :=
  let '(total_payoff, rng) := mc_loop (Z.to_nat (n - 0)) option p (d_zero, rng) in
  let price := (exp (- p.(Parameters.r) * p.(Parameters.T))
                * (total_payoff / of_int n))%D in
  (price, rng).

End Code.
End MonteCarloprice.

(** ** The arithmetic of [int] *)

(** C++ [int], 32 bits in two's complement, kept as the [Z] it stands for.
    A sum or a difference that leaves the range is undefined in C++; the
    model takes the wrap-around that the compiled program shows. *)
Module Int.

Definition min : Z := (-2147483648)%Z.
Definition max : Z := 2147483647%Z.

Definition range (x : Z) : Prop := (min <= x <= max)%Z.

Definition wrap (x : Z) : Z := ((x - min) mod 4294967296 + min)%Z.

Definition add (a b : Z) : Z := wrap (a + b).
Definition sub (a b : Z) : Z := wrap (a - b).

End Int.

(** ** std::vector<double>, with its accesses checked *)

(** What a call can end in besides returning: the [std::length_error] that
    the constructor [vector(n)] throws when [n], an [int] converted to
    [size_t], is out of range (a negative [int] is), and an [operator[]]
    outside the vector, which the C++ standard leaves undefined. *)
Inductive failure : Type :=
| length_error
| out_of_bounds (index : Z) (size : nat).

Inductive outcome (X : Type) : Type :=
| Returned (x : X)
| Failed (e : failure).
Arguments Returned {X} x.
Arguments Failed {X} e.

Module Vector.
Section Code.
Context {A : Arith}.

(** A computation over the one vector [values] of [BinomialTree::price]. *)
Definition M (X : Type) : Type := list double -> outcome (X * list double).

Definition ret {X} (x : X) : M X := fun values => Returned (x, values).

Definition bind {X Y} (m : M X) (k : X -> M Y) : M Y :=
  fun values =>
    match m values with
    | Returned (x, values') => k x values'
    | Failed e => Failed e
    end.

(** [vector<double> values(n)]: [n] elements, each [0.0], the memory for
    them being there. *)
Definition create (n : Z) : outcome (list double) :=
  if (n <? 0)%Z then Failed length_error
  else Returned (replicate (Z.to_nat n) d_zero).

(** [values[i]] read. *)
Definition get (i : Z) : M double :=
  fun values =>
    if (i <? 0)%Z then Failed (out_of_bounds i (length values))
    else match values !! Z.to_nat i with
         | Some v => Returned (v, values)
         | None => Failed (out_of_bounds i (length values))
         end.

(** [values[i] = v]. *)
Definition set (i : Z) (v : double) : M unit :=
  fun values =>
    if ((i <? 0) || (Z.of_nat (length values) <=? i))%Z
    then Failed (out_of_bounds i (length values))
    else Returned (tt, <[Z.to_nat i := v]> values).

(** [count] passes through [body], at [i], [i+1], ... *)
Fixpoint for_up (count : nat) (i : Z) (body : Z -> M unit) : M unit :=
  match count with
  | O => ret tt
  | Datatypes.S k => bind (body i) (fun _ => for_up k (Int.add i 1) body)
  end.

(** [count] passes through [body], at [i], [i-1], ... *)
Fixpoint for_down (count : nat) (i : Z) (body : Z -> M unit) : M unit :=
  match count with
  | O => ret tt
  | Datatypes.S k => bind (body i) (fun _ => for_down k (Int.sub i 1) body)
  end.

(** [for (int i = lo; i <= hi; i++) body], for [hi < INT_MAX]: the loop
    makes [hi + 1 - lo] passes and leaves.  [price] gets to its loops with
    a vector of [N + 1] elements only, so with [hi <= N < INT_MAX]. *)
Definition for_le (lo hi : Z) (body : Z -> M unit) : M unit :=
  for_up (Z.to_nat (hi + 1 - lo)) lo body.

(** [for (int i = hi; i >= lo; i--) body] *)
Definition for_ge (hi lo : Z) (body : Z -> M unit) : M unit :=
  for_down (Z.to_nat (hi + 1 - lo)) hi body.

End Code.
End Vector.

Notation "'let*' x := m 'in' k" := (Vector.bind m (fun x => k))
  (at level 10, x name, m at level 100, k at level 200).
Notation "m ;; k" := (Vector.bind m (fun _ => k))
  (at level 100, k at level 200, right associativity).

(** ** BinomialTree *)

Module BinomialTree.
Section Code.
Context {A : Arith}.

(** The terminal loop, [for(int i=0;i<=N;i++)]. *)
Definition fill (option : Option) (p : Parameters) (N : Z) (u d : double)
    : Vector.M unit :=
  Vector.for_le 0 N (fun i =>
    let ST := (p.(Parameters.S) * pow u i * pow d (Int.sub N i))%D in
    Vector.set i (payoff option ST)).

(** The inner loop of the backward induction, [for(int j=0;j<=i;j++)]. *)
Definition layer (disc prob : double) (i : Z) : Vector.M unit :=
  Vector.for_le 0 i (fun j =>
    let* vj1 := Vector.get (Int.add j 1) in
    let* vj := Vector.get j in
    Vector.set j (disc * (prob * vj1 + (d_one - prob) * vj))%D).

(** The outer loop, [for(int i=N-1;i>=0;i--)]. *)
Definition induce (disc prob : double) (N : Z) : Vector.M unit :=
  Vector.for_ge (Int.sub N 1) 0 (layer disc prob).

(** The body of [price] once [values] exists; the vector it leaves is
    returned with the result. *)
Definition price_on (option : Option) (p : Parameters) (N : Z)
    : Vector.M double :=
  let dt := (p.(Parameters.T) / of_int N)%D in
  let u := exp (p.(Parameters.sigma) * sqrt dt)%D in
  let d := (d_one / u)%D in
  let disc := exp (- p.(Parameters.r) * dt)%D in
  let prob := ((exp (p.(Parameters.r) * dt) - d) / (u - d))%D in
  fill option p N u d ;;
  induce disc prob N ;;
  Vector.get 0.

Definition price (option : Option) (p : Parameters) (N : Z) : outcome double :=
  match Vector.create (Int.add N 1) with
  | Failed e => Failed e
  | Returned values =>
      match price_on option p N values with
      | Returned (v, _) => Returned v
      | Failed e => Failed e
      end
  end.

End Code.
End BinomialTree.

(** ** The public entries *)

(** The four operations a caller has, with what a call of each ends in.
    [bsprice], [delta] and [mc_price] hold no [throw] and call nothing that
    throws, so each of them returns; [price] ends as its vector lets it. *)
Module Entry.
Section Code.
Context {A : Arith} {E : ErrorFunction A} {Rnd : StdRandom A}.

Definition blackScholesPrice (option : Option) (p : Parameters)
    : outcome double :=
  Returned (BlackScholesprice.bsprice option p).

Definition blackScholesDelta (option : Option) (p : Parameters)
    : outcome double :=
  Returned (BlackScholesprice.delta option p).

Definition monteCarloPrice (option : Option) (p : Parameters) (rng : RNG)
    (pathCount : Z) : outcome (double * RNG) :=
  Returned (MonteCarloprice.mc_price option p rng pathCount).

Definition binomialPrice (option : Option) (p : Parameters) (stepCount : Z)
    : outcome double :=
  BinomialTree.price option p stepCount.

End Code.

Definition fails {X : Type} (o : outcome X) : Prop := exists e, o = Failed e.

End Entry.

(** ** The draws of a pricing run *)

(** What a run of [mc_price] takes from the generator, told apart from the
    loop: the first [n] values that [sample] returns, in order, and the
    state [n] calls of [sample] leave. *)
Module Draws.
Section Def.
Context {A : Arith} {Rnd : StdRandom A}.

Fixpoint draws (n : nat) (g : RNG) : list double :=
  match n with
  | O => []
  | Datatypes.S k => let '(z, g') := RNG.sample g in z :: draws k g'
  end.

Fixpoint advance (n : nat) (g : RNG) : RNG :=
  match n with
  | O => g
  | Datatypes.S k => advance k (snd (RNG.sample g))
  end.

(** The payoff of the path whose draw is [z], with [ST] spelled as in the
    source. *)
Definition path_payoff (option : Option) (p : Parameters) (z : double) : double :=
  payoff option
    (p.(Parameters.S)
     * exp ((p.(Parameters.r) - d_half * p.(Parameters.sigma) * p.(Parameters.sigma))
              * p.(Parameters.T)
            + p.(Parameters.sigma) * sqrt p.(Parameters.T) * z))%D.

(** The payoffs added up as the loop does it: from [total], left to right. *)
Definition accumulate (option : Option) (p : Parameters) (total : double)
    (zs : list double) : double :=
  fold_left (fun acc z => (acc + path_payoff option p z)%D) zs total.

End Def.
End Draws.

(** ** The closed form of the specification *)

(** The Black-Scholes formulas as the specification writes them, over the
    reals: [N], [d1], [d2] and the two prices built from one [d1]/[d2]. *)
Module ClosedForm.
Section Formulas.
Variable erf : R -> R.
Variables S K r sigma T : R.

Definition N (x : R) : R := (1 / 2 * (1 + erf (x / R_sqrt.sqrt 2)))%R.

Definition d1 : R :=
  ((ln (S / K) + (r + sigma ^ 2 / 2) * T) / (sigma * R_sqrt.sqrt T))%R.

Definition d2 : R := (d1 - sigma * R_sqrt.sqrt T)%R.

Definition call_price : R :=
  (S * N d1 - K * Rtrigo_def.exp (- (r * T)) * N d2)%R.

Definition put_price : R :=
  (K * Rtrigo_def.exp (- (r * T)) * N (- d2) - S * N (- d1))%R.

End Formulas.
End ClosedForm.

(** What the proofs assume of [std::erf]: it is odd, and its values lie in
    [[-1,1]]. *)
Definition erf_odd (E : ErrorFunction Rdouble) : Prop :=
  forall x : R, erf (- x)%R = (- erf x)%R.
Definition erf_range (E : ErrorFunction Rdouble) : Prop :=
  forall x : R, (-1 <= erf x <= 1)%R.

(** ** The lattice of the specification *)

(** The Cox-Ross-Rubinstein lattice as the specification describes it, layer
    by layer: the terminal layer has [N+1] nodes, each backward step turns a
    layer into one with a node less, and the price is what is left after
    [N] steps. *)
Module Lattice.
Section Def.
Context {A : Arith}.
Variables (option : Option) (p : Parameters) (N : Z).

Definition dt : double := (p.(Parameters.T) / of_int N)%D.
Definition u : double := exp (p.(Parameters.sigma) * sqrt dt)%D.
Definition d : double := (d_one / u)%D.
Definition disc : double := exp (- p.(Parameters.r) * dt)%D.
Definition prob : double := ((exp (p.(Parameters.r) * dt) - d) / (u - d))%D.

(** [V_i = payoff(S * u^i * d^(N-i))] *)
Definition terminal_value (i : Z) : double :=
  payoff option (p.(Parameters.S) * pow u i * pow d (N - i))%D.

Definition terminal_layer : list double :=
  terminal_value <$> seqZ 0 (N + 1).

(** [disc * (p * V_(j+1) + (1 - p) * V_j)] *)
Definition node (vj vj1 : double) : double :=
  (disc * (prob * vj1 + (d_one - prob) * vj))%D.

Definition step_back (V : list double) : list double :=
  zip_with node V (drop 1 V).

(** The layer reached after [k] backward steps. *)
Definition layer_after (k : nat) : list double :=
  Nat.iter k step_back terminal_layer.

End Def.
End Lattice.

(** ** The Monte Carlo estimator of the specification *)

(** Over the reals: the terminal price
    [ST = S*exp((r - sigma^2/2)*T + sigma*sqrt(T)*z)] of one draw, the sum of
    a list of payoffs, and the discounted sample mean. *)
Module Estimator.
Section Formulas.
Variable payoff_of : R -> R.
Variables S r sigma T : R.

Definition terminal_price (z : R) : R :=
  (S * Rtrigo_def.exp ((r - sigma ^ 2 / 2) * T + sigma * R_sqrt.sqrt T * z))%R.

Definition total (zs : list R) : R :=
  fold_right Rplus 0%R (map (fun z => payoff_of (terminal_price z)) zs).

Definition discounted_mean (zs : list R) (n : Z) : R :=
  (Rtrigo_def.exp (- (r * T)) * (total zs / IZR n))%R.

End Formulas.
End Estimator.

(** ** The nodes of the lattice, one by one *)

(** The value of node [j] of the layer [k] steps back from the terminal
    layer, by the backward recursion on the nodes. *)
Module Nodes.
Section Def.
Context {A : Arith}.
Variables (option : Option) (p : Parameters) (N : Z).

Fixpoint value (k j : nat) : double :=
  match k with
  | O => Lattice.terminal_value option p N (Z.of_nat j)
  | Datatypes.S k' =>
      Lattice.node p N (value k' j) (value k' (Datatypes.S j))
  end.

End Def.
End Nodes.

(** ** A market at another scale *)

(** The market [p] with its spot multiplied by [c]. *)
Definition rescale (c : R) (p : @Parameters Rdouble) : @Parameters Rdouble :=
  {| Parameters.S := (c * Parameters.S p)%R;
     Parameters.sigma := Parameters.sigma p;
     Parameters.r := Parameters.r p;
     Parameters.T := Parameters.T p |}.

(** ** main *)

(** [main], as a function of the number [random_device] hands out; what it
    sends to [cout] is kept as a list of items, the text of a [double]
    being left to [operator<<].  The arithmetic has no reading of decimal
    literals, so [100.0], [0.20] and [0.05] come in as [c100], [c020] and
    [c005]. *)
Module Main.
Import Strings.String.
Section Code.
Context {A : Arith} {E : ErrorFunction A} {Rnd : StdRandom A}.
Variables c100 c020 c005 : double.

Inductive item : Type :=
| Text (s : string)
| Number (x : double)
| Endl.

Definition nl : string := String (Ascii.ascii_of_nat 10) EmptyString.

(** The ten output statements. *)
Definition report
    (call_mc put_mc call_bs put_bs call_delta put_delta call_bi put_bi : double)
    : list item :=
  [ Text ("European Call Prices" ++ nl);
    Text "Monte Carlo : "; Number call_mc; Text nl;
    Text "BlackScholes: "; Number call_bs; Text nl;
    Text "Binomial    : "; Number call_bi; Text (nl ++ nl);
    Text ("European Put Prices" ++ nl);
    Text "Monte Carlo : "; Number put_mc; Text nl;
    Text "BlackScholes: "; Number put_bs; Text nl;
    Text "Binomial    : "; Number put_bi; Text nl;
    Text "Delta for call:"; Number call_delta; Endl;
    Text "Delta for put:"; Number put_delta; Endl ]%string.

Definition p : Parameters :=
  {| Parameters.S := c100; Parameters.sigma := c020;
     Parameters.r := c005; Parameters.T := d_one |}.

Definition K : double := c100.

(** The body of [main] after [int n] and [int N] are set; a tree that
    fails ends it before anything is printed. *)
Definition run (n N : Z) (device : Z) : outcome (list item * Z) :=
  let call := EuropeanCall K in
  let put := EuropeanPut K in
  let rng := RNG.RNG device in
  let '(call_mc, rng) := MonteCarloprice.mc_price call p rng n in
  let '(put_mc, rng) := MonteCarloprice.mc_price put p rng n in
  let call_bs := BlackScholesprice.bsprice call p in
  let put_bs := BlackScholesprice.bsprice put p in
  let call_delta := BlackScholesprice.delta call p in
  let put_delta := BlackScholesprice.delta put p in
  match BinomialTree.price call p N with
  | Failed e => Failed e
  | Returned call_bi =>
      match BinomialTree.price put p N with
      | Failed e => Failed e
      | Returned put_bi =>
          Returned
            (report call_mc put_mc call_bs put_bs call_delta put_delta
               call_bi put_bi, 0%Z)
      end
  end.

(** The output and the exit code, with [n = 1000000] and [N = 200]. *)
Definition main (device : Z) : outcome (list item * Z) :=
  run 1000000 200 device.

End Code.
End Main.

(** ** Concrete inputs *)

(** An odd function with values in [[-1,1]], standing for [std::erf] where a
    closed term is needed. *)
Definition sigmoid (x : R) : R := (2 / PI * atan x)%R.

Definition SigmoidErf : ErrorFunction Rdouble := {| erf := sigmoid |}.

(** The market of [main]: [S = 100], [sigma = 0.20], [r = 0.05], [T = 1]. *)
Definition main_p : @Parameters Rdouble :=
  {| Parameters.S := 100%R; Parameters.sigma := (20 / 100)%R;
     Parameters.r := (5 / 100)%R; Parameters.T := 1%R |}.

(** The options of [main]: a call and a put at the strike [K = 100]. *)
Definition main_call : @Option Rdouble := EuropeanCall 100%R.
Definition main_put : @Option Rdouble := EuropeanPut 100%R.

(** A stand-in for [<random>], used where a closed term is needed: the
    engine is a counter that starts at the seed, and the distribution
    returns [mean + stddev * counter]. *)
Definition CounterRandom : StdRandom Rdouble := {|
  mt19937 := Z;
  mt19937_seed := fun seed => seed;
  normal_distribution := (R * R)%type;
  normal_distribution_init := fun mean stddev => (mean, stddev);
  normal_distribution_call := fun rv gen =>
    ((fst rv + snd rv * IZR gen)%R, (rv, (gen + 1)%Z));
|}.

(** Stand-ins in binary64, used where a closed term is needed: a [libm]
    whose [pow] multiplies [x] by itself, and whose [exp] and [log] are the
    constants [exp(0)] and [log(1)]; and the counter generator again. *)
Definition pow_by_squares (x : spec_float) (n : Z) : spec_float :=
  match n with
  | Z0 => Binary64.of_Z 1 0
  | Zpos k =>
      Pos.iter (SFmul Binary64.prec Binary64.emax x) (Binary64.of_Z 1 0) k
  | Zneg k =>
      SFdiv Binary64.prec Binary64.emax (Binary64.of_Z 1 0)
        (Pos.iter (SFmul Binary64.prec Binary64.emax x) (Binary64.of_Z 1 0) k)
  end.

Definition libm0 : Binary64.Libm := {|
  Binary64.libm_exp := fun _ => Binary64.of_Z 1 0;
  Binary64.libm_log := fun _ => S754_zero false;
  Binary64.libm_pow := pow_by_squares;
|}.

Definition CounterRandom64 : StdRandom (Binary64.arith libm0) :=
  Build_StdRandom (Binary64.arith libm0)
    Z (fun seed => seed)
    (spec_float * spec_float)%type (fun mean stddev => (mean, stddev))
    (fun rv gen =>
       (SFadd Binary64.prec Binary64.emax (fst rv)
          (SFmul Binary64.prec Binary64.emax (snd rv) (Binary64.of_Z gen 0)),
        (rv, (gen + 1)%Z))).

(** The market and the call of [main] in binary64, the decimals [0.20] and
    [0.05] rounded as the compiler rounds them. *)
Definition main_p64 : @Parameters (Binary64.arith libm0) :=
  @Parameters.Build_t (Binary64.arith libm0)
    (Binary64.of_Z 100 0)
    (SFdiv Binary64.prec Binary64.emax (Binary64.of_Z 20 0) (Binary64.of_Z 100 0))
    (SFdiv Binary64.prec Binary64.emax (Binary64.of_Z 5 0) (Binary64.of_Z 100 0))
    (Binary64.of_Z 1 0).
Definition main_call64 : @Option (Binary64.arith libm0) :=
  @EuropeanCall (Binary64.arith libm0) (Binary64.of_Z 100 0).

(** A [libm] whose [exp] returns a NaN on a NaN, as the [exp] of an IEEE
    library does, and [exp(0)] elsewhere; the counter generator over it;
    and the put of [main] on the market of [main] with the maturity
    [T = -1]. *)
Definition libm_nan : Binary64.Libm := {|
  Binary64.libm_exp := fun x =>
    match x with S754_nan => S754_nan | _ => Binary64.of_Z 1 0 end;
  Binary64.libm_log := fun _ => S754_zero false;
  Binary64.libm_pow := pow_by_squares;
|}.

Definition CounterRandomNaN : StdRandom (Binary64.arith libm_nan) :=
  Build_StdRandom (Binary64.arith libm_nan)
    Z (fun seed => seed)
    (spec_float * spec_float)%type (fun mean stddev => (mean, stddev))
    (fun rv gen =>
       (SFadd Binary64.prec Binary64.emax (fst rv)
          (SFmul Binary64.prec Binary64.emax (snd rv) (Binary64.of_Z gen 0)),
        (rv, (gen + 1)%Z))).

Definition negative_maturity_p64 : @Parameters (Binary64.arith libm_nan) :=
  @Parameters.Build_t (Binary64.arith libm_nan)
    (Binary64.of_Z 100 0)
    (SFdiv Binary64.prec Binary64.emax (Binary64.of_Z 20 0) (Binary64.of_Z 100 0))
    (SFdiv Binary64.prec Binary64.emax (Binary64.of_Z 5 0) (Binary64.of_Z 100 0))
    (Binary64.of_Z (-1) 0).
Definition main_put64 : @Option (Binary64.arith libm_nan) :=
  @EuropeanPut (Binary64.arith libm_nan) (Binary64.of_Z 100 0).

(** A call whose strike is a NaN, in binary64. *)
Definition nan_call64 : @Option (Binary64.arith libm0) :=
  @EuropeanCall (Binary64.arith libm0) S754_nan.

(** * Theorems *)

(** ** Black-Scholes over the reals *)

Section BlackScholesReal.
Context (E : ErrorFunction Rdouble).
Import BlackScholesprice.
Local Open Scope R_scope.

Lemma normal_cdf_N (x : R) : normal_cdf x = ClosedForm.N erf x.
Proof. reflexivity. Qed.

Lemma d1_closed (option : Option) (p : Parameters) :
  d1 option p =
  ClosedForm.d1 (Parameters.S p) (strike option) (Parameters.r p)
    (Parameters.sigma p) (Parameters.T p).
Proof.
  unfold d1, ClosedForm.d1; simpl.
  f_equal. f_equal. f_equal. field.
Qed.

Lemma d2_closed (option : Option) (p : Parameters) :
  d2 option p =
  ClosedForm.d2 (Parameters.S p) (strike option) (Parameters.r p)
    (Parameters.sigma p) (Parameters.T p).
Proof. unfold d2, ClosedForm.d2. rewrite d1_closed. reflexivity. Qed.

Lemma discount_closed (p : @Parameters Rdouble) :
  exp (- Parameters.r p * Parameters.T p)%D
  = Rtrigo_def.exp (- (Parameters.r p * Parameters.T p)).
Proof. simpl. f_equal. ring. Qed.

(** C1: for a call, [bsprice] is [S*N(d1) - K*exp(-r*T)*N(d2)], for a put
    [K*exp(-r*T)*N(-d2) - S*N(-d1)], with [d1], [d2] and [N] as the
    specification writes them and shared by the two branches.  It holds
    for all parameters, those with [K, S, sigma, T > 0] among them. *)
Theorem bsprice_closed_form (option : Option) (p : Parameters) :
  bsprice option p =
  if call option
  then ClosedForm.call_price erf (Parameters.S p) (strike option)
         (Parameters.r p) (Parameters.sigma p) (Parameters.T p)
  else ClosedForm.put_price erf (Parameters.S p) (strike option)
         (Parameters.r p) (Parameters.sigma p) (Parameters.T p).
Proof.
  unfold bsprice, ClosedForm.call_price, ClosedForm.put_price.
  rewrite <- d2_closed, <- d1_closed, discount_closed.
  destruct (call option); reflexivity.
Qed.

Lemma N_complement (x : R) :
  erf_odd E -> ClosedForm.N erf (- x) = 1 - ClosedForm.N erf x.
Proof.
  intros Hodd. unfold ClosedForm.N.
  replace (- x / R_sqrt.sqrt 2) with (- (x / R_sqrt.sqrt 2))
    by (unfold Rdiv; ring).
  rewrite Hodd. lra.
Qed.

Lemma N_unit (x : R) : erf_range E -> 0 <= ClosedForm.N erf x <= 1.
Proof.
  intros Hr. unfold ClosedForm.N.
  specialize (Hr (x / R_sqrt.sqrt 2)). lra.
Qed.

(** C5: put-call parity.  With an odd [erf], the price of the call minus
    the price of the put at one strike is [S - K*exp(-r*T)]: over the
    reals the two sides are equal, with no tolerance left to spend. *)
Theorem put_call_parity (K : R) (p : Parameters) :
  erf_odd E ->
  0 < K -> 0 < Parameters.S p ->
  0 < Parameters.sigma p -> 0 < Parameters.T p ->
  bsprice (EuropeanCall K) p - bsprice (EuropeanPut K) p
  = Parameters.S p - K * Rtrigo_def.exp (- (Parameters.r p * Parameters.T p)).
Proof.
  intros Hodd _ _ _ _.
  unfold bsprice; simpl call; cbv iota zeta.
  rewrite !normal_cdf_N, !N_complement, discount_closed by assumption.
  simpl. ring.
Qed.

(** C6: [delta] is [N(d1)] for a call and [N(d1) - 1] for a put; with [erf]
    in [[-1,1]] the first lies in [[0,1]], the second in [[-1,0]], and
    their difference is 1. *)
Theorem delta_cases_and_bounds (K : R) (p : Parameters) :
  erf_range E ->
  0 < K -> 0 < Parameters.S p ->
  0 < Parameters.sigma p -> 0 < Parameters.T p ->
  let Nd1 :=
    ClosedForm.N erf
      (ClosedForm.d1 (Parameters.S p) K (Parameters.r p)
         (Parameters.sigma p) (Parameters.T p)) in
  delta (EuropeanCall K) p = Nd1
  /\ delta (EuropeanPut K) p = Nd1 - 1
  /\ 0 <= delta (EuropeanCall K) p <= 1
  /\ -1 <= delta (EuropeanPut K) p <= 0
  /\ delta (EuropeanCall K) p - delta (EuropeanPut K) p = 1.
Proof.
  intros Hr _ _ _ _ Nd1.
  assert (Hc : delta (EuropeanCall K) p = Nd1).
  { unfold delta; simpl call; cbv iota. rewrite d1_closed. reflexivity. }
  assert (Hp : delta (EuropeanPut K) p = Nd1 - 1).
  { unfold delta; simpl call; cbv iota. rewrite d1_closed. reflexivity. }
  rewrite Hc, Hp.
  pose proof (N_unit
    (ClosedForm.d1 (Parameters.S p) K (Parameters.r p)
       (Parameters.sigma p) (Parameters.T p)) Hr) as Hb.
  fold Nd1 in Hb.
  repeat split; lra.
Qed.

End BlackScholesReal.

(** ** Monte Carlo: the loop and the draws *)

Section MonteCarloAny.
Context {A : Arith} {Rnd : StdRandom A}.
Import MonteCarloprice Draws.

Lemma mc_trial_sample (option : Option) (p : Parameters) (total : double) (g : RNG) :
  mc_trial option p (total, g)
  = ((total + path_payoff option p (fst (RNG.sample g)))%D, snd (RNG.sample g)).
Proof. unfold mc_trial. destruct (RNG.sample g) as [z g']. reflexivity. Qed.

Lemma draws_step (n : nat) (g : RNG) :
  draws (Datatypes.S n) g = fst (RNG.sample g) :: draws n (snd (RNG.sample g)).
Proof. simpl. destruct (RNG.sample g) as [z g']. reflexivity. Qed.

Lemma draws_length (n : nat) (g : RNG) : length (draws n g) = n.
Proof.
  revert g. induction n as [|n IH]; intros g; [reflexivity|].
  rewrite draws_step. simpl. now rewrite IH.
Qed.

Lemma mc_loop_accumulate (n : nat) (option : Option) (p : Parameters)
    (total : double) (g : RNG) :
  mc_loop n option p (total, g)
  = (accumulate option p total (draws n g), advance n g).
Proof.
  revert total g. induction n as [|n IH]; intros total g; [reflexivity|].
  cbn [mc_loop advance]. rewrite mc_trial_sample, IH, draws_step. reflexivity.
Qed.

Lemma mc_price_accumulate (option : Option) (p : Parameters) (g : RNG) (n : Z) :
  mc_price option p g n
  = ((exp (- Parameters.r p * Parameters.T p)
      * (accumulate option p d_zero (draws (Z.to_nat n) g) / of_int n))%D,
     advance (Z.to_nat n) g).
Proof.
  unfold mc_price. rewrite Z.sub_0_r, mc_loop_accumulate. reflexivity.
Qed.

End MonteCarloAny.

(** ** Monte Carlo over the reals *)

Section MonteCarloReal.
Context (Rnd : StdRandom Rdouble).
Import MonteCarloprice Draws.
Local Open Scope R_scope.



Lemma path_payoff_terminal (option : Option) (p : Parameters) (z : R) :
  path_payoff option p z
  = payoff option
      (Estimator.terminal_price (Parameters.S p) (Parameters.r p)
         (Parameters.sigma p) (Parameters.T p) z).
Proof.
  unfold path_payoff, Estimator.terminal_price; simpl.
  f_equal. f_equal. f_equal. field.
Qed.

Lemma accumulate_total (option : Option) (p : Parameters) (t : R) (zs : list R) :
  accumulate option p t zs
  = t + Estimator.total (payoff option) (Parameters.S p) (Parameters.r p)
          (Parameters.sigma p) (Parameters.T p) zs.
Proof.
  unfold accumulate, Estimator.total.
  revert t. induction zs as [|z zs IH]; intros t; simpl.
  - ring.
  - rewrite IH, path_payoff_terminal. simpl. ring.
Qed.

Lemma mc_price_mean (option : Option) (p : Parameters) (g : RNG) (n : Z) :
  mc_price option p g n
  = (Estimator.discounted_mean (payoff option) (Parameters.S p)
       (Parameters.r p) (Parameters.sigma p) (Parameters.T p)
       (draws (Z.to_nat n) g) n,
     advance (Z.to_nat n) g).
Proof.
  rewrite mc_price_accumulate, accumulate_total.
  unfold Estimator.discounted_mean; simpl.
  f_equal. f_equal; [f_equal; ring | f_equal; ring].
Qed.

(** C4: with [n >= 1], [mc_price] takes [n] draws from the generator, one
    for each trial, leaves the generator [n] calls of [sample] on, and
    returns [exp(-r*T)] times the sum over the draws of
    [payoff(S*exp((r - sigma^2/2)*T + sigma*sqrt(T)*z))], divided by [n]. *)
Theorem mc_price_discounted_mean
    (option : Option) (p : Parameters) (g : RNG) (n : Z) :
  (1 <= n)%Z ->
  let zs := draws (Z.to_nat n) g in
  length zs = Z.to_nat n
  /\ mc_price option p g n
     = (Estimator.discounted_mean (payoff option) (Parameters.S p)
          (Parameters.r p) (Parameters.sigma p) (Parameters.T p) zs n,
        advance (Z.to_nat n) g).
Proof.
  intros _ zs. split.
  - apply draws_length.
  - apply mc_price_mean.
Qed.

End MonteCarloReal.

(** ** Monte Carlo: what the price reads of the generator *)

Section Determinism.
Context {A : Arith} {Rnd : StdRandom A}.
Import MonteCarloprice Draws.

(** C8, as amended: the price is a function of the payoff, the parameters,
    the path count and the state of the generator passed in, and it reads
    that state through its next [n] draws only: two calls on generators
    that deliver the same [n] draws, two generators in one state among
    them, return the same price. *)
Theorem mc_price_determined_by_draws
    (option : Option) (p : Parameters) (n : Z) (g1 g2 : RNG) :
  draws (Z.to_nat n) g1 = draws (Z.to_nat n) g2 ->
  fst (mc_price option p g1 n) = fst (mc_price option p g2 n).
Proof.
  intros Hd. rewrite !mc_price_accumulate. cbn [fst]. now rewrite Hd.
Qed.

End Determinism.


(** ** The arithmetic of [int] *)

Lemma wrap_range (x : Z) : Int.range x -> Int.wrap x = x.
Proof.
  unfold Int.range, Int.wrap, Int.min, Int.max. intros Hx.
  rewrite Z.mod_small by lia. lia.
Qed.

Lemma add_range (a b : Z) : Int.range (a + b) -> Int.add a b = (a + b)%Z.
Proof. apply wrap_range. Qed.

Lemma sub_range (a b : Z) : Int.range (a - b) -> Int.sub a b = (a - b)%Z.
Proof. apply wrap_range. Qed.

(** [INT_MAX + 1] is [INT_MIN]. *)
Lemma add_max_one : Int.add Int.max 1 = Int.min.
Proof. reflexivity. Qed.

Ltac int_range := unfold Int.range, Int.min, Int.max in *; lia.

(** ** The checked vector *)

Section VectorFacts.
Context {A : Arith}.
Implicit Types (values pre rest : list double) (i : Z) (v x : double).

Lemma create_replicate (n : Z) :
  (0 <= n)%Z -> Vector.create n = Returned (replicate (Z.to_nat n) d_zero).
Proof.
  intros Hn. unfold Vector.create.
  destruct (Z.ltb_spec n 0); [lia | reflexivity].
Qed.

Lemma create_negative (n : Z) :
  (n < 0)%Z -> Vector.create n = Failed length_error.
Proof.
  intros Hn. unfold Vector.create.
  destruct (Z.ltb_spec n 0); [reflexivity | lia].
Qed.

(** A read returns exactly when its index is inside the vector. *)
Lemma get_in_bounds i values :
  (exists v, Vector.get i values = Returned (v, values))
  <-> (0 <= i < Z.of_nat (length values))%Z.
Proof.
  unfold Vector.get. destruct (Z.ltb_spec i 0) as [Hi|Hi].
  - split; [intros [v Hv]; discriminate | lia].
  - destruct (values !! Z.to_nat i) as [v|] eqn:Hl.
    + apply lookup_lt_Some in Hl. split; [lia | eauto].
    + apply lookup_ge_None in Hl. split; [intros [v Hv]; discriminate | lia].
Qed.

(** A write returns exactly when its index is inside the vector. *)
Lemma set_in_bounds i v values :
  (exists values', Vector.set i v values = Returned (tt, values'))
  <-> (0 <= i < Z.of_nat (length values))%Z.
Proof.
  unfold Vector.set.
  destruct (Z.ltb_spec i 0) as [Hi|Hi];
    destruct (Z.leb_spec (Z.of_nat (length values)) i) as [Hj|Hj]; simpl;
    (split; [intros [v' Hv]; try discriminate; lia | intros; try lia; eauto]).
Qed.

Lemma get_middle pre x rest :
  Vector.get (Z.of_nat (length pre)) (pre ++ x :: rest)
  = Returned (x, pre ++ x :: rest).
Proof.
  unfold Vector.get.
  destruct (Z.ltb_spec (Z.of_nat (length pre)) 0); [lia|].
  rewrite Nat2Z.id, list_lookup_middle by reflexivity. reflexivity.
Qed.

Lemma set_middle pre x rest v :
  Vector.set (Z.of_nat (length pre)) v (pre ++ x :: rest)
  = Returned (tt, pre ++ v :: rest).
Proof.
  unfold Vector.set.
  destruct (Z.ltb_spec (Z.of_nat (length pre)) 0); [lia|].
  destruct (Z.leb_spec (Z.of_nat (length (pre ++ x :: rest)))
              (Z.of_nat (length pre))) as [Hj|Hj].
  { rewrite length_app in Hj. simpl in Hj. lia. }
  simpl. rewrite Nat2Z.id, insert_app_r_alt, Nat.sub_diag by lia.
  reflexivity.
Qed.

End VectorFacts.

(** ** The loops of the binomial tree *)

Section BinomialLoops.
Context {A : Arith}.
Implicit Types (values pre rest L stale : list double) (v x y : double).

(** The terminal loop writes [f i] at each [i] it passes. *)
Lemma for_up_set (f : Z -> double) (count : nat) pre rest :
  count <= length rest ->
  (Z.of_nat (length pre + count) <= Int.max)%Z ->
  Vector.for_up count (Z.of_nat (length pre)) (fun i => Vector.set i (f i))
    (pre ++ rest)
  = Returned (tt, pre ++ (f <$> seqZ (Z.of_nat (length pre)) (Z.of_nat count))
                    ++ drop count rest).
Proof.
  revert pre rest. induction count as [|k IH]; intros pre rest Hlen Hmax.
  - reflexivity.
  - destruct rest as [|x rest]; [simpl in Hlen; lia|].
    cbn [Vector.for_up]. unfold Vector.bind at 1. rewrite set_middle.
    rewrite add_range by int_range.
    replace (Z.of_nat (length pre) + 1)%Z
      with (Z.of_nat (length (pre ++ [f (Z.of_nat (length pre))])))
      by (rewrite length_app; simpl; lia).
    rewrite (cons_middle _ pre rest), app_assoc.
    rewrite IH by (rewrite ?length_app; simpl in *; lia).
    rewrite (seqZ_cons (Z.of_nat (length pre)) (Z.of_nat (Datatypes.S k))) by lia.
    rewrite length_app; simpl length.
    replace (Z.succ (Z.of_nat (length pre))) with (Z.of_nat (length pre + 1)) by lia.
    replace (Z.pred (Z.of_nat (Datatypes.S k))) with (Z.of_nat k) by lia.
    rewrite <- app_assoc. reflexivity.
Qed.

Section Layer.
Variables disc prob : double.

Let nd (vj vj1 : double) : double :=
  (disc * (prob * vj1 + (d_one - prob) * vj))%D.

Let body (j : Z) : Vector.M unit :=
  let* vj1 := Vector.get (Int.add j 1) in
  let* vj := Vector.get j in
  Vector.set j (nd vj vj1).

(** One pass of the inner loop reads [values[j+1]] and [values[j]] and
    writes [values[j]]. *)
Lemma body_middle pre x y rest :
  (Z.of_nat (length pre) < Int.max)%Z ->
  body (Z.of_nat (length pre)) (pre ++ x :: y :: rest)
  = Returned (tt, pre ++ nd x y :: y :: rest).
Proof.
  intros Hmax. unfold body, Vector.bind.
  rewrite add_range by int_range.
  replace (Z.of_nat (length pre) + 1)%Z with (Z.of_nat (length (pre ++ [x])))
    by (rewrite length_app; simpl; lia).
  rewrite (cons_middle x pre (y :: rest)), app_assoc, get_middle.
  rewrite <- app_assoc. simpl app.
  rewrite get_middle, set_middle. reflexivity.
Qed.

Lemma for_up_body (count : nat) pre rest :
  count < length rest ->
  (Z.of_nat (length pre + count) <= Int.max)%Z ->
  Vector.for_up count (Z.of_nat (length pre)) body (pre ++ rest)
  = Returned (tt, pre ++ zip_with nd (take count rest) (drop 1 rest)
                    ++ drop count rest).
Proof.
  revert pre rest. induction count as [|k IH]; intros pre rest Hlen Hmax.
  - reflexivity.
  - destruct rest as [|x [|y rest]]; simpl in Hlen; try lia.
    cbn [Vector.for_up]. unfold Vector.bind at 1.
    rewrite body_middle by lia.
    rewrite add_range by int_range.
    replace (Z.of_nat (length pre) + 1)%Z
      with (Z.of_nat (length (pre ++ [nd x y])))
      by (rewrite length_app; simpl; lia).
    rewrite (cons_middle (nd x y) pre (y :: rest)), app_assoc.
    rewrite IH by (rewrite ?length_app; simpl in *; lia).
    rewrite <- app_assoc. reflexivity.
Qed.

(** A pass of [layer] over a vector that starts with a layer [L] of [i+2]
    nodes leaves the next layer in front, and the rest as it was. *)
Lemma layer_step (i : nat) L stale :
  length L = Datatypes.S (Datatypes.S i) ->
  (Z.of_nat i < Int.max)%Z ->
  BinomialTree.layer disc prob (Z.of_nat i) (L ++ stale)
  = Returned (tt, zip_with nd L (drop 1 L) ++ drop (Datatypes.S i) (L ++ stale)).
Proof.
  intros HL Hmax. unfold BinomialTree.layer, Vector.for_le.
  replace (Z.to_nat (Z.of_nat i + 1 - 0)) with (Datatypes.S i) by lia.
  change (Vector.for_up (Datatypes.S i) 0 body (L ++ stale)
          = Returned (tt, zip_with nd L (drop 1 L)
                            ++ drop (Datatypes.S i) (L ++ stale))).
  refine (eq_trans (for_up_body (Datatypes.S i) [] (L ++ stale) _ _) _);
    [rewrite length_app; lia | simpl length; lia |].
  simpl app. do 2 f_equal. f_equal.
  rewrite take_app_le by lia.
  rewrite drop_app_le by lia.
  rewrite zip_with_app_r.
  rewrite length_drop, HL.
  replace (Datatypes.S (Datatypes.S i) - 1) with (Datatypes.S i) by lia.
  rewrite take_take, Nat.min_id.
  rewrite (drop_ge (take (Datatypes.S i) L)) by (rewrite length_take; lia).
  rewrite zip_with_nil_l, app_nil_r.
  apply zip_with_take_l'. rewrite length_drop. lia.
Qed.

(** The backward induction over a vector that starts with a layer of
    [count+1] nodes leaves the layer [count] steps back in front. *)
Lemma for_down_layers (count : nat) L stale :
  length L = Datatypes.S count ->
  (Z.of_nat count <= Int.max)%Z ->
  exists stale',
    Vector.for_down count (Z.of_nat count - 1) (BinomialTree.layer disc prob)
      (L ++ stale)
    = Returned (tt, Nat.iter count (fun V => zip_with nd V (drop 1 V)) L ++ stale')
    /\ length stale' = length stale + count.
Proof.
  revert L stale. induction count as [|k IH]; intros L stale HL Hmax.
  - exists stale. split; [reflexivity | lia].
  - cbn [Vector.for_down]. unfold Vector.bind at 1.
    replace (Z.of_nat (Datatypes.S k) - 1)%Z with (Z.of_nat k) by lia.
    rewrite layer_step by (exact HL || lia).
    rewrite sub_range by int_range.
    destruct (IH (zip_with nd L (drop 1 L))
                (drop (Datatypes.S k) (L ++ stale))) as (stale' & Hrun & Hlen).
    { rewrite length_zip_with, length_drop. lia. }
    { lia. }
    exists stale'. split.
    + rewrite Hrun, Nat.iter_succ_r. reflexivity.
    + rewrite Hlen, length_drop, length_app. lia.
Qed.

Lemma iter_step_length (count : nat) L :
  length (Nat.iter count (fun V => zip_with nd V (drop 1 V)) L)
  = length L - count.
Proof.
  induction count as [|k IH]; simpl; [lia|].
  rewrite length_zip_with, length_drop, IH. lia.
Qed.

End Layer.
End BinomialLoops.

(** ** The binomial price and the lattice *)

Section BinomialPrice.
Context {A : Arith}.
Variables (option : Option) (p : Parameters) (N : Z).

Lemma terminal_layer_length :
  length (Lattice.terminal_layer option p N) = Z.to_nat (N + 1).
Proof. unfold Lattice.terminal_layer. now rewrite length_fmap, length_seqZ. Qed.

Lemma layer_after_length (k : nat) :
  length (Lattice.layer_after option p N k) = Z.to_nat (N + 1) - k.
Proof.
  unfold Lattice.layer_after, Lattice.step_back, Lattice.node.
  rewrite iter_step_length, terminal_layer_length. reflexivity.
Qed.

Lemma fill_terminal (values : list double) :
  (N < Int.max)%Z ->
  length values = Z.to_nat (N + 1) ->
  BinomialTree.fill option p N (Lattice.u p N) (Lattice.d p N) values
  = Returned (tt, Lattice.terminal_layer option p N).
Proof.
  intros Hmax Hlen. unfold BinomialTree.fill, Vector.for_le.
  rewrite Z.sub_0_r.
  refine (eq_trans
    (for_up_set
       (fun i => payoff option
          (Parameters.S p * pow (Lattice.u p N) i
           * pow (Lattice.d p N) (Int.sub N i))%D)
       (Z.to_nat (N + 1)) [] values _ _) _);
    [lia | simpl length; int_range |].
  simpl app. simpl length. rewrite drop_ge, app_nil_r by lia.
  unfold Lattice.terminal_layer. do 2 f_equal.
  destruct (Z.le_gt_cases 0 (N + 1)) as [Hn|Hn].
  - rewrite Z2Nat.id by lia.
    apply list_fmap_ext. intros k i Hi.
    apply lookup_seqZ in Hi as [-> Hk].
    unfold Lattice.terminal_value. rewrite sub_range by int_range.
    reflexivity.
  - rewrite !seqZ_nil by lia. reflexivity.
Qed.

Lemma induce_layers (L stale : list double) :
  (0 <= N <= Int.max)%Z ->
  length L = Z.to_nat (N + 1) ->
  exists stale',
    BinomialTree.induce (Lattice.disc p N) (Lattice.prob p N) N (L ++ stale)
    = Returned (tt, Nat.iter (Z.to_nat N) (Lattice.step_back p N) L ++ stale')
    /\ length stale' = length stale + Z.to_nat N.
Proof.
  intros HN HL. unfold BinomialTree.induce, Vector.for_ge.
  rewrite sub_range by int_range.
  replace (Z.to_nat (N - 1 + 1 - 0)) with (Z.to_nat N) by lia.
  replace (N - 1)%Z with (Z.of_nat (Z.to_nat N) - 1)%Z by lia.
  apply (for_down_layers (Lattice.disc p N) (Lattice.prob p N)); lia.
Qed.

(** The run of [price] on its vector: the loops return, the result is the
    one node of the layer [N] steps back, and the vector keeps its size. *)
Lemma price_on_run (values : list double) :
  (0 <= N < Int.max)%Z ->
  length values = Z.to_nat (N + 1) ->
  exists v stale,
    Lattice.layer_after option p N (Z.to_nat N) = [v]
    /\ BinomialTree.price_on option p N values = Returned (v, v :: stale)
    /\ length (v :: stale) = Z.to_nat (N + 1).
Proof.
  intros HN Hlen.
  destruct (induce_layers (Lattice.terminal_layer option p N) []
              ltac:(lia) terminal_layer_length) as (stale & Hrun & Hstale).
  fold (Lattice.layer_after option p N (Z.to_nat N)) in Hrun.
  pose proof (layer_after_length (Z.to_nat N)) as Hone.
  destruct (Lattice.layer_after option p N (Z.to_nat N)) as [|v [|w rest]];
    simpl in Hone; try lia.
  exists v, stale. split; [reflexivity|]. split.
  - unfold BinomialTree.price_on.
    fold (Lattice.dt p N). fold (Lattice.u p N). fold (Lattice.d p N).
    fold (Lattice.disc p N). fold (Lattice.prob p N).
    unfold Vector.bind. rewrite (fill_terminal values ltac:(lia) Hlen).
    rewrite app_nil_r in Hrun. rewrite Hrun. reflexivity.
  - simpl in *. lia.
Qed.

Lemma price_run :
  (0 <= N < Int.max)%Z ->
  exists v,
    Lattice.layer_after option p N (Z.to_nat N) = [v]
    /\ BinomialTree.price option p N = Returned v.
Proof.
  intros HN. unfold BinomialTree.price.
  rewrite add_range by int_range.
  rewrite create_replicate by lia.
  destruct (price_on_run (replicate (Z.to_nat (N + 1)) d_zero) HN)
    as (v & stale & Hv & Hrun & _); [apply length_replicate|].
  exists v. split; [exact Hv|]. rewrite Hrun. reflexivity.
Qed.

End BinomialPrice.

Section BinomialEdge.
Context {A : Arith}.

Lemma price_zero_node (option : Option) (p : Parameters) :
  BinomialTree.price option p 0
  = Returned (Lattice.terminal_value option p 0 0).
Proof.
  destruct (price_run option p 0) as (v & Hv & Hrun); [int_range|].
  rewrite Hrun. f_equal.
  unfold Lattice.layer_after, Lattice.terminal_layer in Hv. simpl in Hv.
  now injection Hv as <-.
Qed.

Lemma price_minus_one (option : Option) (p : Parameters) :
  BinomialTree.price option p (-1) = Failed (out_of_bounds 0 0).
Proof. reflexivity. Qed.

Lemma price_below_minus_one (option : Option) (p : Parameters) (N : Z) :
  (Int.min <= N < -1)%Z ->
  BinomialTree.price option p N = Failed length_error.
Proof.
  intros HN. unfold BinomialTree.price.
  rewrite add_range by int_range.
  rewrite create_negative by lia. reflexivity.
Qed.

(** With [N = INT_MAX] the size [N + 1] is [INT_MIN]. *)
Lemma price_int_max (option : Option) (p : Parameters) :
  BinomialTree.price option p Int.max = Failed length_error.
Proof. reflexivity. Qed.

End BinomialEdge.


(** ** The claims on the binomial tree *)

Section BinomialClaims.
Context {A : Arith}.

(** C3: with [N >= 1] and [N + 1] an [int] ([N < INT_MAX]), [price]
    returns the one node that is left when the terminal layer
    [V_i = payoff(S*u^i*d^(N-i))], [i] in [0..N], is taken back [N] times
    by [V_j <- disc*(p*V_(j+1) + (1-p)*V_j)], with [dt], [u], [d], [disc]
    and [p] as the specification gives them. *)
Theorem price_is_lattice_root (option : Option) (p : Parameters) (N : Z) :
  (1 <= N < Int.max)%Z ->
  exists v,
    Lattice.layer_after option p N (Z.to_nat N) = [v]
    /\ BinomialTree.price option p N = Returned v.
Proof.
  intros HN. unfold BinomialTree.price.
  rewrite add_range by int_range.
  rewrite create_replicate by lia.
  destruct (price_on_run option p N (replicate (Z.to_nat (N + 1)) d_zero))
    as (v & stale & Hv & Hrun & _); [lia | apply length_replicate |].
  exists v. split; [exact Hv|]. rewrite Hrun. reflexivity.
Qed.

(** C9: with [N >= 1] and [N + 1] an [int] ([N < INT_MAX]), the vector has
    [N+1] elements and every access of the run falls inside it: the run
    returns, it does not end in an access out of bounds, and it leaves a
    vector of [N+1] elements. *)
Theorem price_accesses_in_bounds (option : Option) (p : Parameters) (N : Z) :
  (1 <= N < Int.max)%Z ->
  exists values,
    Vector.create (Int.add N 1) = Returned values
    /\ length values = Z.to_nat (N + 1)
    /\ (exists v values',
          BinomialTree.price_on option p N values = Returned (v, values')
          /\ length values' = Z.to_nat (N + 1))
    /\ (forall i size,
          BinomialTree.price option p N <> Failed (out_of_bounds i size)).
Proof.
  intros HN. exists (replicate (Z.to_nat (N + 1)) d_zero).
  split; [rewrite add_range by int_range; apply create_replicate; lia|].
  split; [apply length_replicate|].
  split.
  - destruct (price_on_run option p N (replicate (Z.to_nat (N + 1)) d_zero))
      as (v & stale & _ & Hrun & Hlen); [lia | apply length_replicate |].
    exists v, (v :: stale). split; assumption.
  - intros i size. destruct (price_run option p N) as (v & _ & Hv); [lia|].
    rewrite Hv. discriminate.
Qed.

(** C7: with [N = 0] the vector has the one node [payoff(S*pow(u,0)*pow(d,0))]
    and no backward step is taken; as [pow(x, 0)] is [1.0] and [S * 1.0] is
    [S], [price] returns [payoff(S)], not discounted. *)
Theorem price_zero_steps (option : Option) (p : Parameters) :
  (forall x : double, pow x 0 = d_one) ->
  (Parameters.S p * d_one)%D = Parameters.S p ->
  BinomialTree.price option p 0 = Returned (payoff option (Parameters.S p)).
Proof.
  intros Hpow Hmul. rewrite price_zero_node. f_equal.
  unfold Lattice.terminal_value. simpl Z.sub.
  now rewrite !Hpow, !Hmul.
Qed.

End BinomialClaims.

(** ** The entries and their failures *)

(** In binary64 the quotient [0.0 / 0] is a NaN, and so is its product with
    any number. *)
Lemma binary64_zero_by_zero (m : Binary64.Libm) (x : spec_float) :
  @d_mul (Binary64.arith m) x
    (@d_div (Binary64.arith m) (@d_zero (Binary64.arith m))
       (@of_int (Binary64.arith m) 0))
  = S754_nan.
Proof. destruct x; reflexivity. Qed.

Lemma mc_price_zero_paths_binary64
    (m : Binary64.Libm) (Rnd64 : StdRandom (Binary64.arith m))
    (option64 : @Option (Binary64.arith m))
    (p64 : @Parameters (Binary64.arith m))
    (rng64 : @RNG (Binary64.arith m) Rnd64) :
  Entry.monteCarloPrice option64 p64 rng64 0 = Returned (S754_nan, rng64).
Proof.
  unfold Entry.monteCarloPrice. rewrite mc_price_accumulate.
  change (Z.to_nat 0) with 0%nat. cbn [Draws.draws Draws.advance Draws.accumulate fold_left].
  now rewrite binary64_zero_by_zero.
Qed.

Section Entries.
Context {A : Arith} {E : ErrorFunction A} {Rnd : StdRandom A}.

(** C2, as amended: no entry checks what it is given.  [monteCarloPrice]
    returns for every path count, and with none it returns the discount
    times [0.0 / 0] without a draw, a NaN in binary64; [blackScholesPrice]
    returns for all parameters, [T = 0] and [sigma = 0] among them;
    [binomialPrice] with no step returns the payoff of its one node, and
    the calls of it that fail are those with a negative step count and the
    one with [INT_MAX] steps, where [N + 1] is [INT_MIN]; they fail in the
    vector. *)
Theorem entries_without_validation
    (option : Option) (p : Parameters) (rng : RNG) :
  (forall n, ~ Entry.fails (Entry.monteCarloPrice option p rng n))
  /\ Entry.monteCarloPrice option p rng 0
     = Returned ((exp (- Parameters.r p * Parameters.T p)
                  * (d_zero / of_int 0))%D, rng)
  /\ (forall (m : Binary64.Libm) (Rnd64 : StdRandom (Binary64.arith m))
        (option64 : @Option (Binary64.arith m))
        (p64 : @Parameters (Binary64.arith m))
        (rng64 : @RNG (Binary64.arith m) Rnd64),
        Entry.monteCarloPrice option64 p64 rng64 0
        = Returned (S754_nan, rng64))
  /\ ~ Entry.fails (Entry.blackScholesPrice option p)
  /\ Entry.binomialPrice option p 0
     = Returned (Lattice.terminal_value option p 0 0)
  /\ (forall N,
        Int.range N ->
        Entry.fails (Entry.binomialPrice option p N)
        <-> (N < 0)%Z \/ N = Int.max)
  /\ Entry.binomialPrice option p Int.max = Failed length_error.
Proof.
  split; [intros n [e He]; discriminate|].
  split.
  { unfold Entry.monteCarloPrice. rewrite mc_price_accumulate. reflexivity. }
  split; [exact mc_price_zero_paths_binary64|].
  split; [intros [e He]; discriminate|].
  split; [apply price_zero_node|].
  split; [|apply price_int_max].
  intros N HN. unfold Entry.binomialPrice. split.
  - intros [e He]. destruct (Z.lt_ge_cases N 0) as [Hneg|Hpos]; [now left|].
    destruct (Z.eq_dec N Int.max) as [Hmax|Hmax]; [now right|].
    destruct (price_run option p N) as (v & _ & Hv); [int_range|].
    rewrite Hv in He. discriminate.
  - intros [Hneg | ->].
    + destruct (Z.eq_dec N (-1)%Z) as [->|Hne].
      * eexists. apply price_minus_one.
      * eexists. apply price_below_minus_one. int_range.
    + eexists. apply price_int_max.
Qed.

End Entries.


(** ** Monte Carlo in binary64: the sign of the price *)

Section Signs.
Variables prec emax : Z.

Lemma round_aux_sign_clear (mx ex : Z) (lx : location) :
  sign_clear (binary_round_aux prec emax false mx ex lx).
Proof.
  unfold binary_round_aux.
  destruct (shr_fexp prec emax mx ex lx) as [mrs' e'].
  destruct (shr_fexp prec emax _ e' loc_Exact) as [mrs'' e''].
  destruct (shr_m mrs''); simpl; auto.
  destruct (Z.leb e'' (emax - prec)); reflexivity.
Qed.

Lemma round_sign_clear (mx : positive) (ex : Z) :
  sign_clear (binary_round prec emax false mx ex).
Proof.
  unfold binary_round.
  destruct (shl_align mx ex _) as [mz ez]. apply round_aux_sign_clear.
Qed.

Lemma normalize_sign_clear (m e : Z) :
  (0 <= m)%Z -> sign_clear (binary_normalize prec emax m e false).
Proof.
  intros Hm. destruct m as [|m|m]; simpl; [reflexivity | | lia].
  apply round_sign_clear.
Qed.

Lemma sign_clear_not_negative (x : spec_float) : sign_clear x -> not_negative x.
Proof. destruct x as [s|s| |s m e]; simpl; intros H; subst; reflexivity. Qed.

Lemma add_sign_clear (x y : spec_float) :
  sign_clear x -> not_negative y -> sign_clear (SFadd prec emax x y).
Proof.
  unfold not_negative.
  destruct x as [sx|sx| |sx mx ex]; destruct y as [sy|sy| |sy my ey];
    simpl; intros Hx Hy; subst; try reflexivity; try discriminate;
    try (destruct sy; try discriminate; reflexivity).
  destruct sy; [discriminate|]. simpl.
  apply round_sign_clear.
Qed.

Lemma div_sign_clear (x y : spec_float) :
  sign_clear x -> sign_clear y -> sign_clear (SFdiv prec emax x y).
Proof.
  destruct x as [sx|sx| |sx mx ex]; destruct y as [sy|sy| |sy my ey];
    simpl; intros Hx Hy; subst; try reflexivity.
  destruct (SFdiv_core_binary prec emax (Z.pos mx) ex (Z.pos my) ey)
    as [[mz ez] lz].
  apply round_aux_sign_clear.
Qed.

Lemma mul_not_negative (x y : spec_float) :
  not_negative x -> sign_clear y -> not_negative (SFmul prec emax x y).
Proof.
  unfold not_negative.
  destruct x as [sx|sx| |sx mx ex]; destruct y as [sy|sy| |sy my ey];
    simpl; intros Hx Hy; subst; try reflexivity; try discriminate;
    try (destruct sx; try discriminate; reflexivity).
  destruct sx; [discriminate|]. simpl.
  apply sign_clear_not_negative, round_aux_sign_clear.
Qed.

End Signs.

Section MonteCarloBinary64.
Variable m : Binary64.Libm.
Context (Rnd : StdRandom (Binary64.arith m)).
Import MonteCarloprice Draws.

Local Abbreviation option64 := (@Option (Binary64.arith m)).
Local Abbreviation parameters64 := (@Parameters (Binary64.arith m)).
Local Abbreviation rng64 := (@RNG (Binary64.arith m) Rnd).

Lemma payoff_not_negative (option : option64) (ST : spec_float) :
  not_negative (payoff option ST).
Proof.
  unfold payoff, d_max, not_negative.
  destruct option as [K|K]; cbn [d_lt d_zero d_sub Binary64.arith].
  - destruct (SFltb (SFsub Binary64.prec Binary64.emax ST K) (S754_zero false))
      eqn:Hlt; [reflexivity | exact Hlt].
  - destruct (SFltb (SFsub Binary64.prec Binary64.emax K ST) (S754_zero false))
      eqn:Hlt; [reflexivity | exact Hlt].
Qed.

Lemma accumulate_sign_clear (option : option64) (p : parameters64)
    (total : spec_float) (zs : list spec_float) :
  sign_clear total -> sign_clear (accumulate option p total zs).
Proof.
  unfold accumulate. revert total.
  induction zs as [|z zs IH]; intros total Ht; simpl; [exact Ht|].
  apply IH. apply add_sign_clear; [exact Ht | apply payoff_not_negative].
Qed.

(** X1: in binary64, with an [exp] that returns no negative number and
    [n >= 1], the Monte Carlo price is never less than zero: it is a zero,
    a positive number, an infinity or a NaN, whatever the payoff, the
    parameters and the draws, NaNs and infinities among them. *)
Theorem mc_price_never_negative_binary64
    (option : option64) (p : parameters64) (g : rng64) (n : Z) :
  (forall x, not_negative (Binary64.libm_exp m x)) ->
  (1 <= n)%Z ->
  not_negative (fst (mc_price option p g n)).
Proof.
  intros Hexp Hn. rewrite mc_price_accumulate. cbn [fst].
  cbn [d_mul d_div exp of_int d_zero Binary64.arith].
  apply mul_not_negative; [apply Hexp|].
  apply div_sign_clear.
  - apply accumulate_sign_clear. reflexivity.
  - apply normalize_sign_clear. lia.
Qed.

(** A number that is not less than zero is a NaN, or zero is at most it. *)
Lemma not_negative_cases (x : spec_float) :
  not_negative x -> x = S754_nan \/ SFleb (S754_zero false) x = true.
Proof.
  unfold not_negative.
  destruct x as [s|[|]| |[|] mx ex]; simpl; intros H;
    try discriminate; auto.
Qed.

(** C10, as amended: in binary64, with an [exp] that returns no negative
    number and [n >= 1], each payoff is a NaN or at least zero, so is the
    total of the payoffs of the run, and so is the Monte Carlo price: it
    is never less than zero, and nonnegative unless it is a NaN. *)
Theorem mc_price_nonneg_or_nan
    (option : option64) (p : parameters64) (g : rng64) (n : Z) :
  (forall x, not_negative (Binary64.libm_exp m x)) ->
  (1 <= n)%Z ->
  (forall ST : spec_float,
     payoff option ST = S754_nan
     \/ SFleb (S754_zero false) (payoff option ST) = true)
  /\ (accumulate option p d_zero (draws (Z.to_nat n) g) = S754_nan
      \/ SFleb (S754_zero false)
           (accumulate option p d_zero (draws (Z.to_nat n) g)) = true)
  /\ (fst (mc_price option p g n) = S754_nan
      \/ SFleb (S754_zero false) (fst (mc_price option p g n)) = true).
Proof.
  intros Hexp Hn.
  split; [intros ST; apply not_negative_cases, payoff_not_negative|].
  assert (Htotal : sign_clear
            (accumulate option p d_zero (draws (Z.to_nat n) g)))
    by (apply accumulate_sign_clear; reflexivity).
  split; [apply not_negative_cases, sign_clear_not_negative, Htotal|].
  apply not_negative_cases.
  rewrite mc_price_accumulate. cbn [fst].
  cbn [d_mul d_div exp of_int Binary64.arith].
  apply mul_not_negative; [apply Hexp|].
  apply div_sign_clear; [exact Htotal | apply normalize_sign_clear; lia].
Qed.

End MonteCarloBinary64.

(** ** Concrete runs *)

Section Closed.
Import MonteCarloprice Draws BlackScholesprice.
Local Open Scope R_scope.
#[local] Existing Instance SigmoidErf.
#[local] Existing Instance CounterRandom.

Lemma sigmoid_odd : erf_odd SigmoidErf.
Proof.
  intros x. simpl. unfold sigmoid. rewrite atan_opp. ring.
Qed.

Lemma sigmoid_range : erf_range SigmoidErf.
Proof.
  intros x. simpl. unfold sigmoid.
  pose proof (atan_bound x) as [Hl Hu].
  pose proof PI_RGT_0 as Hpi.
  assert (H1 : 2 / PI * atan x < 2 / PI * (PI / 2)).
  { apply Rmult_lt_compat_l; [apply Rdiv_lt_0_compat; lra | exact Hu]. }
  assert (H2 : 2 / PI * (- PI / 2) < 2 / PI * atan x).
  { apply Rmult_lt_compat_l; [apply Rdiv_lt_0_compat; lra | exact Hl]. }
  replace (2 / PI * (PI / 2)) with 1 in H1 by (field; lra).
  replace (2 / PI * (- PI / 2)) with (-1) in H2 by (field; lra).
  lra.
Qed.

(** The parity of C5 on the market of [main], at the strike 100. *)
Lemma put_call_parity_witness :
  bsprice main_call main_p - bsprice main_put main_p
  = 100 - 100 * Rtrigo_def.exp (- (5 / 100 * 1)).
Proof.
  apply (put_call_parity SigmoidErf 100 main_p sigmoid_odd); simpl; lra.
Defined.

(** The deltas of C6 on the market of [main], at the strike 100. *)
Lemma delta_cases_and_bounds_witness :
  let Nd1 := ClosedForm.N sigmoid (ClosedForm.d1 100 100 (5 / 100) (20 / 100) 1) in
  delta main_call main_p = Nd1
  /\ delta main_put main_p = Nd1 - 1
  /\ 0 <= delta main_call main_p <= 1
  /\ -1 <= delta main_put main_p <= 0
  /\ delta main_call main_p - delta main_put main_p = 1.
Proof.
  apply (delta_cases_and_bounds SigmoidErf 100 main_p sigmoid_range);
    simpl; lra.
Defined.

(** C4 on two paths of the call of [main]. *)
Lemma mc_price_discounted_mean_witness :
  let zs := draws (Z.to_nat 2) (RNG.RNG 0) in
  length zs = Z.to_nat 2
  /\ mc_price main_call main_p (RNG.RNG 0) 2
     = (Estimator.discounted_mean (payoff main_call) 100
          (5 / 100) (20 / 100) 1 zs 2,
        advance (Z.to_nat 2) (RNG.RNG 0)).
Proof.
  apply (mc_price_discounted_mean CounterRandom main_call main_p
           (RNG.RNG 0) 2).
  lia.
Defined.

(** C8, as amended, on two generators in different states that deliver
    the same three draws, 3, 4 and 5. *)
Lemma mc_price_determined_by_draws_witness :
  fst (mc_price main_call main_p {| RNG.gen := 3%Z; RNG.rv := (0, 1) |} 3)
  = fst (mc_price main_call main_p {| RNG.gen := 0%Z; RNG.rv := (3, 1) |} 3).
Proof.
  apply (mc_price_determined_by_draws (A := Rdouble) (Rnd := CounterRandom)
           main_call main_p 3).
  simpl. rewrite !plus_IZR.
  repeat (apply (f_equal2 cons); [lra|]). reflexivity.
Defined.

(** C3 on a tree of two steps. *)
Lemma price_is_lattice_root_witness :
  exists v,
    Lattice.layer_after main_call main_p 2 (Z.to_nat 2) = [v]
    /\ BinomialTree.price main_call main_p 2 = Returned v.
Proof.
  apply (price_is_lattice_root (A := Rdouble) main_call main_p 2).
  int_range.
Defined.

(** C9 on a tree of two steps. *)
Lemma price_accesses_in_bounds_witness :
  exists values,
    Vector.create (Int.add 2 1) = Returned values
    /\ length values = Z.to_nat (2 + 1)
    /\ (exists v values',
          BinomialTree.price_on main_put main_p 2 values
          = Returned (v, values')
          /\ length values' = Z.to_nat (2 + 1))
    /\ (forall i size,
          BinomialTree.price main_put main_p 2
          <> Failed (out_of_bounds i size)).
Proof.
  apply (price_accesses_in_bounds (A := Rdouble) main_put main_p 2).
  int_range.
Defined.

(** C7 over the reals, where [x^0 = 1] and [x * 1 = x]. *)
Lemma price_zero_steps_witness :
  BinomialTree.price main_put main_p 0
  = Returned (payoff main_put 100).
Proof.
  apply (price_zero_steps (A := Rdouble) main_put main_p).
  - intros x. reflexivity.
  - simpl. ring.
Defined.

(** C10, as amended, on three paths of the call of [main] in binary64. *)
Lemma mc_price_nonneg_or_nan_witness :
  (forall ST : spec_float,
     payoff main_call64 ST = S754_nan
     \/ SFleb (S754_zero false) (payoff main_call64 ST) = true)
  /\ (@accumulate (Binary64.arith libm0) main_call64 main_p64
        (S754_zero false)
        (@draws (Binary64.arith libm0) CounterRandom64 (Z.to_nat 3)
           (RNG.RNG 0))
      = S754_nan
      \/ SFleb (S754_zero false)
           (@accumulate (Binary64.arith libm0) main_call64 main_p64
              (S754_zero false)
              (@draws (Binary64.arith libm0) CounterRandom64 (Z.to_nat 3)
                 (RNG.RNG 0)))
         = true)
  /\ (fst (@mc_price (Binary64.arith libm0) CounterRandom64
             main_call64 main_p64 (RNG.RNG 0) 3)
      = S754_nan
      \/ SFleb (S754_zero false)
           (fst (@mc_price (Binary64.arith libm0) CounterRandom64
                   main_call64 main_p64 (RNG.RNG 0) 3))
         = true).
Proof.
  apply (mc_price_nonneg_or_nan libm0 CounterRandom64
           main_call64 main_p64 (RNG.RNG 0) 3).
  - intros x. reflexivity.
  - lia.
Defined.

(** C10, counterexample: with the maturity [T = -1], [sqrt(T)] is a NaN,
    and so are the terminal price, the payoff [max(K - ST, 0.0)], the
    total and the price of the put of [main] on one path: the price is
    not at least zero. *)
Lemma mc_price_nan_at_negative_maturity :
  fst (@mc_price (Binary64.arith libm_nan) CounterRandomNaN
         main_put64 negative_maturity_p64 (RNG.RNG 0) 1)
  = S754_nan
  /\ SFleb (S754_zero false)
       (fst (@mc_price (Binary64.arith libm_nan) CounterRandomNaN
               main_put64 negative_maturity_p64 (RNG.RNG 0) 1))
     = false.
Proof. split; vm_compute; reflexivity. Qed.

(** X1 on two paths of the call of [main] in binary64. *)
Lemma mc_price_never_negative_binary64_witness :
  not_negative
    (fst (@mc_price (Binary64.arith libm0) CounterRandom64
            main_call64 main_p64 (RNG.RNG 0) 2)).
Proof.
  apply (mc_price_never_negative_binary64 libm0 CounterRandom64
           main_call64 main_p64 (RNG.RNG 0) 2).
  - intros x. reflexivity.
  - lia.
Defined.

(** C2, counterexample: [binomialPrice] of the call of [main] with
    [stepCount = 0] does not fail, it returns [payoff(100)], which is 0;
    and [monteCarloPrice] of that call with [pathCount = 0] does not fail
    either, in binary64 it returns a NaN. *)
Lemma binomialPrice_zero_steps_returns :
  Entry.binomialPrice main_call main_p 0 = Returned 0
  /\ ~ Entry.fails (Entry.binomialPrice main_call main_p 0)
  /\ @Entry.monteCarloPrice (Binary64.arith libm0) CounterRandom64
       main_call64 main_p64 (RNG.RNG 0) 0
     = Returned (S754_nan, RNG.RNG 0).
Proof.
  assert (Hrun : Entry.binomialPrice main_call main_p 0 = Returned 0).
  { unfold Entry.binomialPrice. rewrite price_zero_node. f_equal.
    unfold Lattice.terminal_value; simpl. unfold d_max; simpl. unfold Rltb.
    destruct (Rlt_dec _ _); lra. }
  split; [exact Hrun|]. split.
  - intros [e He]. rewrite Hrun in He. discriminate.
  - apply mc_price_zero_paths_binary64.
Qed.

Lemma sqrt_one : R_sqrt.sqrt 1 = 1.
Proof. exact sqrt_1. Qed.

(** The price of the call of [main] on one draw [z >= 0]. *)
Lemma one_path_price (g : @RNG Rdouble CounterRandom) (z : R) :
  draws 1 g = [z] -> 0 <= z ->
  fst (mc_price main_call main_p g 1)
  = Rtrigo_def.exp (- (5 / 100 * 1))
    * ((0 + (100 * Rtrigo_def.exp (3 / 100 + 20 / 100 * z) - 100)) / 1).
Proof.
  intros Hd Hz. rewrite mc_price_mean. cbn [fst].
  change (Z.to_nat 1) with 1%nat. rewrite Hd.
  unfold Estimator.discounted_mean, Estimator.total, Estimator.terminal_price.
  simpl. rewrite sqrt_one.
  replace ((5 / 100 - 20 / 100 * (20 / 100 * 1) / 2) * 1 + 20 / 100 * 1 * z)
    with (3 / 100 + 20 / 100 * z) by field.
  assert (Hexp : 1 <= Rtrigo_def.exp (3 / 100 + 20 / 100 * z)).
  { rewrite <- exp_0. destruct (Req_dec (3 / 100 + 20 / 100 * z) 0) as [->|Hne].
    - lra.
    - left. apply exp_increasing. lra. }
  unfold d_max; simpl. unfold Rltb.
  destruct (Rlt_dec _ _) as [Hlt|Hge]; [lra|]. lra.
Qed.

(** C8, counterexample: the caller has no say in the seed.  Two generators
    that [RNG()] builds, which differ in what [random_device] handed out
    and in nothing the caller passed, give the call of [main] two
    prices. *)
Lemma mc_price_depends_on_device :
  fst (mc_price main_call main_p (RNG.RNG 0) 1)
  <> fst (mc_price main_call main_p (RNG.RNG 1) 1).
Proof.
  rewrite (one_path_price (RNG.RNG 0) 0), (one_path_price (RNG.RNG 1) 1);
    try lra; try (simpl; f_equal; ring).
  pose proof (exp_pos (- (5 / 100 * 1))) as Hd.
  assert (Hlt : Rtrigo_def.exp (3 / 100 + 20 / 100 * 0)
                < Rtrigo_def.exp (3 / 100 + 20 / 100 * 1))
    by (apply exp_increasing; lra).
  intros Heq. nra.
Qed.

End Closed.


(** ** More on the payoffs, over the reals *)

Section PayoffReal.
Local Open Scope R_scope.

Lemma d_max_zero_cases (a : R) :
  (a < 0 /\ d_max a 0 = 0) \/ (0 <= a /\ d_max a 0 = a).
Proof.
  unfold d_max; simpl. unfold Rltb.
  destruct (Rlt_dec a 0); [left | right]; split; lra.
Qed.

Lemma payoff_difference (K ST : R) :
  payoff (EuropeanCall K) ST - payoff (EuropeanPut K) ST = ST - K.
Proof.
  simpl payoff.
  destruct (d_max_zero_cases (ST - K)) as [[Hc ->]|[Hc ->]];
    destruct (d_max_zero_cases (K - ST)) as [[Hp ->]|[Hp ->]]; lra.
Qed.

(** X2: at one strike and one terminal price, the payoff of the call minus
    the payoff of the put is [ST - K], and one of the two is zero. *)
Theorem payoff_parity (K ST : R) :
  payoff (EuropeanCall K) ST - payoff (EuropeanPut K) ST = ST - K
  /\ payoff (EuropeanCall K) ST * payoff (EuropeanPut K) ST = 0.
Proof.
  simpl payoff.
  destruct (d_max_zero_cases (ST - K)) as [[Hc ->]|[Hc ->]];
    destruct (d_max_zero_cases (K - ST)) as [[Hp ->]|[Hp ->]];
    split; try lra; nra.
Qed.

End PayoffReal.


(** ** Monte Carlo: runs in sequence on one generator *)

Section MonteCarloSequence.
Context {A : Arith} {Rnd : StdRandom A}.
Import MonteCarloprice Draws.

Lemma advance_step (n : nat) (g : RNG) :
  advance (Datatypes.S n) g = advance n (snd (RNG.sample g)).
Proof. reflexivity. Qed.

Lemma advance_add (n m : nat) (g : RNG) :
  advance (n + m) g = advance m (advance n g).
Proof.
  revert g. induction n as [|n IH]; intros g; [reflexivity|].
  cbn [Nat.add advance]. apply IH.
Qed.

Lemma draws_add (n m : nat) (g : RNG) :
  draws (n + m) g = draws n g ++ draws m (advance n g).
Proof.
  revert g. induction n as [|n IH]; intros g; [reflexivity|].
  cbn [Nat.add]. rewrite !draws_step, IH. reflexivity.
Qed.

(** X3: two runs of [mc_price] on one generator, as [main] makes them: the
    second run starts where the first stopped, so it prices on the draws
    that follow the first run's, the two runs leave the generator
    [n1 + n2] draws on, and a run with [n <= 0] leaves it untouched. *)
Theorem mc_price_in_sequence
    (option1 option2 : Option) (p : Parameters) (g : RNG) (n1 n2 : Z) :
  let run1 := mc_price option1 p g n1 in
  let run2 := mc_price option2 p (snd run1) n2 in
  let all := draws (Z.to_nat n1 + Z.to_nat n2) g in
  take (Z.to_nat n1) all = draws (Z.to_nat n1) g
  /\ fst run2
     = (exp (- Parameters.r p * Parameters.T p)
        * (accumulate option2 p d_zero (drop (Z.to_nat n1) all) / of_int n2))%D
  /\ snd run2 = advance (Z.to_nat n1 + Z.to_nat n2) g
  /\ ((n1 <= 0)%Z -> snd run1 = g).
Proof.
  intros run1 run2 all. subst run1 run2 all.
  rewrite !mc_price_accumulate. cbn [fst snd].
  rewrite draws_add, advance_add.
  rewrite take_app_length', drop_app_length' by (now rewrite draws_length).
  repeat split.
  intros Hn. replace (Z.to_nat n1) with 0%nat by lia. reflexivity.
Qed.

End MonteCarloSequence.

(** ** Monte Carlo over the reals: parity and bounds *)

Section MonteCarloRealMore.
Context (Rnd : StdRandom Rdouble).
Import MonteCarloprice Draws.
Local Open Scope R_scope.

Section Totals.
Variables (K S r sigma T : R).

Let total_of (f : R -> R) := Estimator.total f S r sigma T.

Lemma total_parity (zs : list R) :
  total_of (payoff (EuropeanCall K)) zs - total_of (payoff (EuropeanPut K)) zs
  = total_of (fun ST => ST) zs - INR (length zs) * K.
Proof.
  unfold total_of, Estimator.total.
  induction zs as [|z zs IH]; [simpl; lra|].
  change (length (z :: zs)) with (Datatypes.S (length zs)). rewrite S_INR.
  cbn [map fold_right].
  pose proof (payoff_difference K (Estimator.terminal_price S r sigma T z)).
  lra.
Qed.

End Totals.

Lemma draws_count (g : RNG) (n : Z) :
  (1 <= n)%Z -> INR (@length R (draws (Z.to_nat n) g)) = IZR n /\ 0 < IZR n.
Proof.
  intros Hn. split; [|apply IZR_lt; lia].
  transitivity (INR (Z.to_nat n)).
  - f_equal. apply (draws_length (Z.to_nat n) g).
  - rewrite INR_IZR_INZ, Z2Nat.id by lia. reflexivity.
Qed.

(** X4: Monte Carlo put-call parity.  Priced on the same [n >= 1] draws, the
    call minus the put is the discounted mean of the terminal prices minus
    the discounted strike, [exp(-r*T) * (sum of ST / n - K)]. *)
Theorem mc_price_parity (K : R) (p : Parameters) (g : RNG) (n : Z) :
  (1 <= n)%Z ->
  fst (mc_price (EuropeanCall K) p g n) - fst (mc_price (EuropeanPut K) p g n)
  = Rtrigo_def.exp (- (Parameters.r p * Parameters.T p))
    * (Estimator.total (fun ST => ST) (Parameters.S p) (Parameters.r p)
         (Parameters.sigma p) (Parameters.T p) (draws (Z.to_nat n) g) / IZR n
       - K).
Proof.
  intros Hn. rewrite !mc_price_mean. cbn [fst].
  unfold Estimator.discounted_mean.
  pose proof (total_parity K (Parameters.S p) (Parameters.r p)
                (Parameters.sigma p) (Parameters.T p) (draws (Z.to_nat n) g))
    as Hpar.
  destruct (draws_count g n Hn) as [Hlen Hpos]. rewrite Hlen in Hpar.
  set (e := Rtrigo_def.exp _).
  set (tc := Estimator.total (@payoff Rdouble (@EuropeanCall Rdouble K)) _ _ _ _ _) in *.
  set (tp := Estimator.total (@payoff Rdouble (@EuropeanPut Rdouble K)) _ _ _ _ _) in *.
  set (ts := Estimator.total (fun ST => ST) _ _ _ _ _) in *.
  replace tc with (tp + ts - IZR n * K) by lra.
  field. lra.
Qed.

End MonteCarloRealMore.


(** ** More on Black-Scholes, over the reals *)

Section BlackScholesRealMore.
Context (E : ErrorFunction Rdouble).
Import BlackScholesprice.
Local Open Scope R_scope.

(** X6: with an odd [erf] with values in [[-1,1]], [normal_cdf] behaves as
    a distribution function at the points the pricer uses: its values lie
    in [[0,1]], [normal_cdf(-x) = 1 - normal_cdf(x)], and
    [normal_cdf(0) = 0.5]. *)
Theorem normal_cdf_symmetric (x : R) :
  erf_odd E -> erf_range E ->
  0 <= normal_cdf x <= 1
  /\ normal_cdf (- x) = 1 - normal_cdf x
  /\ normal_cdf 0 = 1 / 2.
Proof.
  intros Hodd Hrange. rewrite !normal_cdf_N.
  split; [apply N_unit; exact Hrange|].
  split; [apply N_complement; exact Hodd|].
  pose proof (N_complement E 0 Hodd) as H0. rewrite Ropp_0 in H0. lra.
Qed.

(** X7: with [erf] in [[-1,1]] and valid parameters, [K > 0], [S > 0],
    [sigma > 0] and [T > 0], the Black-Scholes price of a call is at most
    the spot and that of a put at most the discounted strike
    [K*exp(-r*T)]. *)
Theorem bsprice_upper_bounds (K : R) (p : Parameters) :
  erf_range E ->
  0 < K -> 0 < Parameters.S p ->
  0 < Parameters.sigma p -> 0 < Parameters.T p ->
  bsprice (EuropeanCall K) p <= Parameters.S p
  /\ bsprice (EuropeanPut K) p
     <= K * Rtrigo_def.exp (- (Parameters.r p * Parameters.T p)).
Proof.
  intros Hrange HK HS _ _.
  unfold bsprice; simpl call; cbv iota zeta.
  rewrite !normal_cdf_N, discount_closed. simpl strike.
  pose proof (exp_pos (- (Parameters.r p * Parameters.T p))) as He.
  set (e := Rtrigo_def.exp _) in *.
  assert (HKe : 0 <= K * e) by (apply Rmult_le_pos; lra).
  split.
  - pose proof (N_unit E (d1 (EuropeanCall K) p) Hrange) as H1.
    pose proof (N_unit E (d2 (EuropeanCall K) p) Hrange) as H2.
    cbn [d_sub d_mul Rdouble].
    match goal with
    | |- ?s * ?n1 - ?k * ?n2 <= _ =>
        assert (0 <= s * (1 - n1)) by (apply Rmult_le_pos; lra);
        assert (0 <= k * n2) by (apply Rmult_le_pos; lra)
    end.
    lra.
  - pose proof (N_unit E (- d1 (EuropeanPut K) p) Hrange) as H1.
    pose proof (N_unit E (- d2 (EuropeanPut K) p) Hrange) as H2.
    cbn [d_sub d_mul d_neg Rdouble] in H1, H2 |- *.
    match goal with
    | |- ?k * ?n2 - ?s * ?n1 <= _ =>
        assert (0 <= s * n1) by (apply Rmult_le_pos; lra);
        assert (0 <= k * (1 - n2)) by (apply Rmult_le_pos; lra)
    end.
    lra.
Qed.

Lemma d1_rescale (c : R) (p : Parameters) (o o' : Option) :
  0 < c -> 0 < strike o -> strike o' = c * strike o ->
  d1 o' (rescale c p) = d1 o p.
Proof.
  intros Hc HK Hs. unfold d1. rewrite Hs.
  cbn [rescale Parameters.S Parameters.sigma Parameters.r Parameters.T
       d_div d_mul d_add log sqrt d_half Rdouble].
  replace (c * Parameters.S p / (c * strike o)) with (Parameters.S p / strike o)
    by (field; lra).
  reflexivity.
Qed.

(** X8: the Black-Scholes price is homogeneous in spot and strike: with
    both multiplied by [c > 0], the price of the call and of the put are
    multiplied by [c], and the deltas do not change. *)
Theorem bsprice_homogeneous (c K : R) (p : Parameters) :
  0 < c -> 0 < K ->
  bsprice (EuropeanCall (c * K)) (rescale c p) = c * bsprice (EuropeanCall K) p
  /\ bsprice (EuropeanPut (c * K)) (rescale c p) = c * bsprice (EuropeanPut K) p
  /\ delta (EuropeanCall (c * K)) (rescale c p) = delta (EuropeanCall K) p
  /\ delta (EuropeanPut (c * K)) (rescale c p) = delta (EuropeanPut K) p.
Proof.
  intros Hc HK.
  pose proof (d1_rescale c p (EuropeanCall K) (EuropeanCall (c * K)) Hc HK
                eq_refl) as Hcall.
  pose proof (d1_rescale c p (EuropeanPut K) (EuropeanPut (c * K)) Hc HK
                eq_refl) as Hput.
  unfold bsprice, delta, d2.
  rewrite Hcall, Hput.
  cbn [call strike rescale Parameters.S Parameters.sigma Parameters.r
       Parameters.T].
  split; [|split; [|split]]; cbn [d_sub d_mul d_neg exp Rdouble];
    try reflexivity;
    match goal with |- @eq _ ?a ?b => change (@eq R a b) end; ring.
Qed.

End BlackScholesRealMore.


(** ** The nodes of the lattice *)

Section LatticeNodes.
Context {A : Arith}.
Variables (option : Option) (p : Parameters) (N : Z).

Lemma terminal_layer_lookup (j : nat) :
  (Z.of_nat j <= N)%Z ->
  Lattice.terminal_layer option p N !! j
  = Some (Lattice.terminal_value option p N (Z.of_nat j)).
Proof.
  intros Hj. unfold Lattice.terminal_layer.
  rewrite list_lookup_fmap, lookup_seqZ_lt by lia. reflexivity.
Qed.

Lemma layer_after_lookup (k j : nat) :
  (Z.of_nat (j + k) <= N)%Z ->
  Lattice.layer_after option p N k !! j = Some (Nodes.value option p N k j).
Proof.
  revert j. induction k as [|k IH]; intros j Hj.
  - apply terminal_layer_lookup. lia.
  - change (Lattice.layer_after option p N (Datatypes.S k))
      with (Lattice.step_back p N (Lattice.layer_after option p N k)).
    unfold Lattice.step_back.
    rewrite lookup_zip_with, lookup_drop, IH, IH by lia.
    reflexivity.
Qed.

Lemma price_root_value :
  (0 <= N < Int.max)%Z ->
  BinomialTree.price option p N
  = Returned (Nodes.value option p N (Z.to_nat N) 0).
Proof.
  intros HN. destruct (price_run option p N HN) as (v & Hv & Hrun).
  rewrite Hrun. f_equal.
  pose proof (layer_after_lookup (Z.to_nat N) 0) as Hl.
  rewrite Hv in Hl. cbn in Hl. specialize (Hl ltac:(lia)).
  now injection Hl.
Qed.

End LatticeNodes.

(** ** The binomial tree over the reals *)

Section BinomialReal.
Local Open Scope R_scope.
Variables (p : @Parameters Rdouble) (N : Z).
Hypothesis Hsigma : 0 < Parameters.sigma p.
Hypothesis HT : 0 < Parameters.T p.
Hypothesis HN : (1 <= N < Int.max)%Z.

Let u : R := Lattice.u p N.
Let d : R := Lattice.d p N.
Let disc : R := Lattice.disc p N.
Let prob : R := Lattice.prob p N.
Let growth : R := Rtrigo_def.exp (Parameters.r p * Lattice.dt p N).

Lemma dt_pos : 0 < Lattice.dt p N.
Proof.
  unfold Lattice.dt; simpl. apply Rdiv_lt_0_compat; [exact HT|].
  apply IZR_lt. lia.
Qed.

Lemma u_gt_one : 1 < u.
Proof.
  unfold u, Lattice.u. cbn [exp sqrt d_mul Rdouble].
  rewrite <- exp_0. apply exp_increasing.
  apply Rmult_lt_0_compat; [exact Hsigma | apply sqrt_lt_R0, dt_pos].
Qed.

Lemma d_inverse : d = / u /\ 0 < d < 1.
Proof.
  pose proof u_gt_one as Hu.
  assert (Hd : d = / u).
  { unfold d, Lattice.d. fold u. cbn [d_div d_one Rdouble]. field. lra. }
  split; [exact Hd|]. rewrite Hd. split.
  - apply Rinv_0_lt_compat. lra.
  - rewrite <- Rinv_1. apply Rinv_lt_contravar; lra.
Qed.

Lemma prob_growth : prob * u + (1 - prob) * d = growth.
Proof.
  pose proof u_gt_one as Hu. destruct d_inverse as [_ Hd].
  unfold prob, Lattice.prob. fold u d. fold (Lattice.d p N). fold d.
  cbn [d_div d_sub d_mul exp Rdouble]. fold growth.
  field. lra.
Qed.

Lemma disc_growth : disc * growth = 1.
Proof.
  unfold disc, Lattice.disc, growth. cbn [exp d_mul d_neg Rdouble].
  rewrite <- exp_plus, <- exp_0. f_equal. ring.
Qed.


Lemma exp_pow_nat (x : R) (n : nat) :
  Rtrigo_def.exp x ^ n = Rtrigo_def.exp (INR n * x).
Proof.
  induction n as [|n IH].
  - simpl. rewrite Rmult_0_l, exp_0. reflexivity.
  - rewrite S_INR. cbn [Rpow_def.pow]. rewrite IH, <- exp_plus. f_equal. ring.
Qed.

Lemma disc_pow_N :
  disc ^ Z.to_nat N
  = Rtrigo_def.exp (- (Parameters.r p * Parameters.T p)).
Proof.
  unfold disc, Lattice.disc, Lattice.dt. cbn [exp d_mul d_neg d_div of_int Rdouble].
  rewrite exp_pow_nat, INR_IZR_INZ, Z2Nat.id by lia. f_equal.
  field. apply not_0_IZR. lia.
Qed.

Let stock (k j : nat) : R :=
  Parameters.S p * powerRZ u (Z.of_nat j)
  * powerRZ d (N - Z.of_nat k - Z.of_nat j).

Lemma stock_up (k j : nat) :
  stock k (Datatypes.S j) = stock (Datatypes.S k) j * u.
Proof.
  pose proof u_gt_one as Hu. unfold stock.
  replace (Z.of_nat (Datatypes.S j)) with (Z.of_nat j + 1)%Z by lia.
  replace (N - Z.of_nat k - (Z.of_nat j + 1))%Z
    with (N - Z.of_nat (Datatypes.S k) - Z.of_nat j)%Z by lia.
  rewrite powerRZ_add by lra. change (powerRZ u 1) with (u * 1). ring.
Qed.

Lemma stock_down (k j : nat) : stock k j = stock (Datatypes.S k) j * d.
Proof.
  destruct d_inverse as [_ Hd]. unfold stock.
  replace (N - Z.of_nat k - Z.of_nat j)%Z
    with (N - Z.of_nat (Datatypes.S k) - Z.of_nat j + 1)%Z by lia.
  rewrite powerRZ_add by lra. change (powerRZ d 1) with (d * 1). ring.
Qed.


Section Parity.
Variable K : R.

Let vc (k j : nat) : R := Nodes.value (@EuropeanCall Rdouble K) p N k j.
Let vp (k j : nat) : R := Nodes.value (@EuropeanPut Rdouble K) p N k j.

Lemma value_difference (k j : nat) : vc k j - vp k j = stock k j - K * disc ^ k.
Proof.
  revert j. induction k as [|k IH]; intros j.
  - unfold vc, vp. cbn [Nodes.value]. unfold Lattice.terminal_value.
    rewrite payoff_difference. unfold stock. fold u d.
    cbn [pow d_mul Rdouble Rpow_def.pow].
    replace (N - Z.of_nat 0 - Z.of_nat j)%Z with (N - Z.of_nat j)%Z by lia.
    ring.
  - assert (Hc : vc (Datatypes.S k) j
                 = disc * (prob * vc k (Datatypes.S j) + (1 - prob) * vc k j))
      by reflexivity.
    assert (Hp : vp (Datatypes.S k) j
                 = disc * (prob * vp k (Datatypes.S j) + (1 - prob) * vp k j))
      by reflexivity.
    rewrite Hc, Hp.
    pose proof (IH j) as H0. pose proof (IH (Datatypes.S j)) as H1.
    rewrite stock_up in H1. rewrite stock_down in H0.
    pose proof prob_growth as Hg. pose proof disc_growth as Hd.
    cbn [Rpow_def.pow].
    replace (vc k j) with (vp k j + (stock (Datatypes.S k) j * d - K * disc ^ k))
      by lra.
    replace (vc k (Datatypes.S j))
      with (vp k (Datatypes.S j) + (stock (Datatypes.S k) j * u - K * disc ^ k))
      by lra.
    transitivity (stock (Datatypes.S k) j * (disc * (prob * u + (1 - prob) * d))
                  - K * (disc * disc ^ k)); [ring|].
    rewrite Hg, Hd. ring.
Qed.

End Parity.

Lemma stock_root : stock (Z.to_nat N) 0 = Parameters.S p.
Proof.
  unfold stock. rewrite Z2Nat.id by lia.
  replace (N - N - Z.of_nat 0)%Z with 0%Z by lia.
  change (Z.of_nat 0) with 0%Z. cbn [powerRZ]. ring.
Qed.

(** X9: put-call parity on the tree.  With [sigma > 0], [T > 0],
    [N >= 1] and [N + 1] an [int], the binomial price of the call minus that of the put at one
    strike is [S - K*exp(-r*T)], whatever [N] is: the parity of the closed
    form holds on the lattice with no discretisation error. *)
Theorem binomial_put_call_parity (K : R) :
  exists c q : R,
    BinomialTree.price (EuropeanCall K) p N = Returned c
    /\ BinomialTree.price (EuropeanPut K) p N = Returned q
    /\ c - q
       = Parameters.S p
         - K * Rtrigo_def.exp (- (Parameters.r p * Parameters.T p)).
Proof.
  exists (Nodes.value (@EuropeanCall Rdouble K) p N (Z.to_nat N) 0),
         (Nodes.value (@EuropeanPut Rdouble K) p N (Z.to_nat N) 0).
  split; [apply (price_root_value (A := Rdouble)); lia|].
  split; [apply (price_root_value (A := Rdouble)); lia|].
  rewrite (value_difference K), stock_root, disc_pow_N. reflexivity.
Qed.

Section Bounded.
Hypothesis Hr :
  - (Parameters.sigma p * R_sqrt.sqrt (Parameters.T p / IZR N))
  <= Parameters.r p * (Parameters.T p / IZR N)
  <= Parameters.sigma p * R_sqrt.sqrt (Parameters.T p / IZR N).







End Bounded.

End BinomialReal.


(** ** Monte Carlo in binary64: NaNs *)

Section MonteCarloNaN.
Variable m : Binary64.Libm.
Context (Rnd : StdRandom (Binary64.arith m)).
Import MonteCarloprice Draws.

Local Abbreviation option64 := (@Option (Binary64.arith m)).
Local Abbreviation parameters64 := (@Parameters (Binary64.arith m)).
Local Abbreviation rng64 := (@RNG (Binary64.arith m) Rnd).
Local Abbreviation add64 := (SFadd Binary64.prec Binary64.emax).

Lemma add_nan_r (x : spec_float) : add64 x S754_nan = S754_nan.
Proof. destruct x; reflexivity. Qed.

Lemma accumulate_nan (option : option64) (p : parameters64)
    (zs : list spec_float) :
  accumulate option p S754_nan zs = S754_nan.
Proof.
  unfold accumulate. induction zs as [|z zs IH]; [reflexivity|].
  cbn [fold_left]. exact IH.
Qed.

Lemma accumulate_poisoned (option : option64) (p : parameters64)
    (total z : spec_float) (zs : list spec_float) :
  In z zs -> path_payoff option p z = S754_nan ->
  accumulate option p total zs = S754_nan.
Proof.
  intros Hin Hnan. revert total.
  induction zs as [|z' zs IH]; intros total; [destruct Hin|].
  destruct Hin as [->|Hin].
  - unfold accumulate. cbn [fold_left]. rewrite Hnan.
    cbn [d_add Binary64.arith]. rewrite add_nan_r. apply accumulate_nan.
  - unfold accumulate. cbn [fold_left]. apply (IH Hin).
Qed.

Lemma price_of_nan_total (p : parameters64) (n : Z) :
  @d_mul (Binary64.arith m)
    (@exp (Binary64.arith m)
       (@d_mul (Binary64.arith m)
          (@d_neg (Binary64.arith m) (Parameters.r p)) (Parameters.T p)))
    (@d_div (Binary64.arith m) S754_nan (@of_int (Binary64.arith m) n))
  = S754_nan.
Proof.
  cbn [d_mul d_div Binary64.arith].
  destruct (@exp (Binary64.arith m) _); reflexivity.
Qed.

(** X12: in binary64 one NaN payoff spoils the estimate: when a draw among
    the [n] of the run gives a path whose payoff is a NaN, the Monte Carlo
    price is a NaN, whatever the other paths pay. *)
Theorem mc_price_nan_path
    (option : option64) (p : parameters64) (g : rng64) (n : Z) (z : spec_float) :
  In z (draws (Z.to_nat n) g) ->
  path_payoff option p z = S754_nan ->
  fst (mc_price option p g n) = S754_nan.
Proof.
  intros Hin Hnan. rewrite mc_price_accumulate. cbn [fst].
  rewrite (accumulate_poisoned option p _ z _ Hin Hnan).
  apply price_of_nan_total.
Qed.

Lemma payoff_nan_strike (option : option64) (ST : spec_float) :
  strike option = S754_nan -> payoff option ST = S754_nan.
Proof.
  destruct option as [K|K]; cbn [strike]; intros ->;
    unfold payoff, d_max; cbn [d_lt d_sub d_zero Binary64.arith];
    destruct ST; reflexivity.
Qed.

Lemma payoff_nan_price (option : option64) :
  payoff option S754_nan = S754_nan.
Proof.
  destruct option as [K|K]; unfold payoff, d_max;
    cbn [d_lt d_sub d_zero Binary64.arith]; destruct K; reflexivity.
Qed.

(** X13: in binary64 a NaN strike or a NaN spot gives a NaN Monte Carlo
    price for every [n >= 1], without a failure: [std::max(x, 0.0)] returns
    its first argument when that is a NaN. *)
Theorem mc_price_nan_input
    (option : option64) (p : parameters64) (g : rng64) (n : Z) :
  (1 <= n)%Z ->
  strike option = S754_nan \/ Parameters.S p = S754_nan ->
  fst (mc_price option p g n) = S754_nan.
Proof.
  intros Hn Hnan. rewrite mc_price_accumulate. cbn [fst].
  destruct (Z.to_nat n) as [|k] eqn:Hk; [lia|].
  rewrite (accumulate_poisoned option p _ (fst (RNG.sample g))).
  - apply price_of_nan_total.
  - rewrite draws_step. left. reflexivity.
  - destruct Hnan as [HK|HS].
    + apply payoff_nan_strike. exact HK.
    + unfold path_payoff. rewrite HS.
      cbn [d_mul Binary64.arith]. apply payoff_nan_price.
Qed.

End MonteCarloNaN.


(** ** main *)

Section MainRuns.
Context {A : Arith} {E : ErrorFunction A} {Rnd : StdRandom A}.
Variables c100 c020 c005 : double.
Import Draws.

Lemma run_returns (n N device : Z) :
  (0 <= N < Int.max)%Z ->
  let p := Main.p c100 c020 c005 in
  let call := EuropeanCall (Main.K c100) in
  let put := EuropeanPut (Main.K c100) in
  let g := RNG.RNG device in
  let mean (o : Option) (zs : list double) : double :=
    (exp (- Parameters.r p * Parameters.T p)
     * (accumulate o p d_zero zs / of_int n))%D in
  Main.run c100 c020 c005 n N device
  = Returned
      (Main.report
         (mean call (draws (Z.to_nat n) g))
         (mean put (draws (Z.to_nat n) (advance (Z.to_nat n) g)))
         (BlackScholesprice.bsprice call p) (BlackScholesprice.bsprice put p)
         (BlackScholesprice.delta call p) (BlackScholesprice.delta put p)
         (Nodes.value call p N (Z.to_nat N) 0)
         (Nodes.value put p N (Z.to_nat N) 0),
       0%Z).
Proof.
  intros HN p call put g mean. unfold Main.run.
  fold p call put g.
  rewrite (mc_price_accumulate call p g n).
  rewrite (mc_price_accumulate put p (advance (Z.to_nat n) g) n).
  rewrite (price_root_value call p N HN), (price_root_value put p N HN).
  reflexivity.
Qed.

(** X14: whatever seed [random_device] hands out, [main] ends with the exit
    code 0 and no tree fails.  The Monte Carlo price of the call is taken on
    the first million draws of the generator and that of the put on the
    second million, so the two estimates share no draw; the two binomial
    prices are the roots of the lattices of 200 steps. *)
Theorem main_exit_code (device : Z) :
  let p := Main.p c100 c020 c005 in
  let call := EuropeanCall (Main.K c100) in
  let put := EuropeanPut (Main.K c100) in
  let g := RNG.RNG device in
  let n := Z.to_nat 1000000 in
  let mean (o : Option) (zs : list double) : double :=
    (exp (- Parameters.r p * Parameters.T p)
     * (accumulate o p d_zero zs / of_int 1000000))%D in
  Main.main c100 c020 c005 device
  = Returned
      (Main.report
         (mean call (draws n g)) (mean put (draws n (advance n g)))
         (BlackScholesprice.bsprice call p) (BlackScholesprice.bsprice put p)
         (BlackScholesprice.delta call p) (BlackScholesprice.delta put p)
         (Nodes.value call p 200 (Z.to_nat 200) 0)
         (Nodes.value put p 200 (Z.to_nat 200) 0),
       0%Z).
Proof.
  exact (run_returns 1000000 200 device ltac:(int_range)).
Qed.

End MainRuns.

(** ** More concrete runs *)

Section ClosedMore.
Import MonteCarloprice Draws BlackScholesprice.
Local Open Scope R_scope.
#[local] Existing Instance SigmoidErf.
#[local] Existing Instance CounterRandom.

(** X4 on two paths of the call and the put of [main]. *)
Lemma mc_price_parity_witness :
  fst (mc_price main_call main_p (RNG.RNG 0) 2)
  - fst (mc_price main_put main_p (RNG.RNG 0) 2)
  = Rtrigo_def.exp (- (5 / 100 * 1))
    * (Estimator.total (fun ST => ST) 100 (5 / 100) (20 / 100) 1
         (draws (Z.to_nat 2) (RNG.RNG 0)) / 2
       - 100).
Proof.
  apply (mc_price_parity CounterRandom 100 main_p (RNG.RNG 0) 2).
  lia.
Defined.

(** X6 at the point 1. *)
Lemma normal_cdf_symmetric_witness :
  0 <= normal_cdf 1 <= 1
  /\ normal_cdf (- 1) = 1 - normal_cdf 1
  /\ normal_cdf 0 = 1 / 2.
Proof.
  apply (normal_cdf_symmetric SigmoidErf 1 sigmoid_odd sigmoid_range).
Defined.

(** X7 on the market of [main], at the strike 100. *)
Lemma bsprice_upper_bounds_witness :
  bsprice main_call main_p <= 100
  /\ bsprice main_put main_p <= 100 * Rtrigo_def.exp (- (5 / 100 * 1)).
Proof.
  apply (bsprice_upper_bounds SigmoidErf 100 main_p sigmoid_range);
    simpl; lra.
Defined.

(** X8 on the market of [main], spot and strike doubled. *)
Lemma bsprice_homogeneous_witness :
  bsprice (EuropeanCall (2 * 100)) (rescale 2 main_p)
  = 2 * bsprice (EuropeanCall 100) main_p
  /\ bsprice (EuropeanPut (2 * 100)) (rescale 2 main_p)
     = 2 * bsprice (EuropeanPut 100) main_p
  /\ delta (EuropeanCall (2 * 100)) (rescale 2 main_p)
     = delta (EuropeanCall 100) main_p
  /\ delta (EuropeanPut (2 * 100)) (rescale 2 main_p)
     = delta (EuropeanPut 100) main_p.
Proof.
  apply (bsprice_homogeneous SigmoidErf 2 100 main_p); lra.
Defined.

Lemma main_p_volatility : 0 < Parameters.sigma main_p.
Proof. simpl. lra. Qed.

Lemma main_p_maturity : 0 < Parameters.T main_p.
Proof. simpl. lra. Qed.


(** X9 on the market of [main], on a tree of two steps. *)
Lemma binomial_put_call_parity_witness :
  exists c q : R,
    BinomialTree.price main_call main_p 2 = Returned c
    /\ BinomialTree.price main_put main_p 2 = Returned q
    /\ c - q = 100 - 100 * Rtrigo_def.exp (- (5 / 100 * 1)).
Proof.
  apply (binomial_put_call_parity main_p 2 main_p_volatility main_p_maturity
           ltac:(int_range) 100).
Defined.


(** X12 on one path of the call with a NaN strike: its one draw, 0, gives
    a NaN payoff. *)
Lemma mc_price_nan_path_witness :
  fst (@mc_price (Binary64.arith libm0) CounterRandom64
         nan_call64 main_p64 (RNG.RNG 0) 1)
  = S754_nan.
Proof.
  apply (mc_price_nan_path libm0 CounterRandom64 nan_call64 main_p64
           (RNG.RNG 0) 1 (S754_zero false)).
  - left. reflexivity.
  - reflexivity.
Defined.

(** X13 on two paths of the call with a NaN strike. *)
Lemma mc_price_nan_input_witness :
  fst (@mc_price (Binary64.arith libm0) CounterRandom64
         nan_call64 main_p64 (RNG.RNG 0) 2)
  = S754_nan.
Proof.
  apply (mc_price_nan_input libm0 CounterRandom64 nan_call64 main_p64
           (RNG.RNG 0) 2).
  - lia.
  - left. reflexivity.
Defined.

End ClosedMore.
